(** * Synchronised AGIPD virtual data set: a model of [offline/vds.py]

    The script scans the train ids of the sixteen detector modules,
    builds one canonical (train, cell) timeline, filters every file's
    rows, maps the surviving rows chunk by chunk into a virtual layout
    and keeps per-frame cell and pulse ids.  The NumPy array operations
    it uses are embedded as list functions; unsigned 64-bit arithmetic
    is written on [Z] with its wrap-around.

    The script runs on NumPy 1.x, which has no common integer type for
    a [uint64] scalar and a Python integer and evaluates their sum,
    difference and comparison in float64.  The train ids of a run lie
    far below 2^53, up to which float64 holds every integer, and the
    definitions below evaluate these operations on integers.  Module
    [Float64] gives the float64 evaluation; [index_ids_exact] and
    [timeline_exact] are the bounds under which the two coincide. *)

From Stdlib Require Import String.
From Stdlib Require Import ZArith List Bool Lia Arith PeanoNat Permutation Sorted.
Import ListNotations.
Open Scope Z_scope.

(** ** NumPy primitives used by the script *)

Module Np.

(** Arithmetic of dtype [u8]. *)
Definition wrap64 (x : Z) : Z := x mod 2 ^ 64.

(** [np.arange(start, start + n)]. *)
Definition arange (start : Z) (n : nat) : list Z :=
  map (fun k => start + Z.of_nat k) (seq 0 n).

(** [np.repeat(a, n)]: every element [n] times in a row. *)
Definition repeat_each {A} (a : list A) (n : nat) : list A :=
  flat_map (fun x => repeat x n) a.

(** [np.tile(a, n)]: the whole array [n] times. *)
Definition tile {A} (a : list A) (n : nat) : list A :=
  concat (repeat a n).

Definition mem (x : Z) (b : list Z) : bool := existsb (Z.eqb x) b.

(** [np.in1d(a, b)]: for every element of [a], is it in [b]. *)
Definition in1d (a b : list Z) : list bool := map (fun x => mem x b) a.

(** [np.where(mask)[0]]: the indices of the true entries, ascending. *)
Fixpoint where_from (i : nat) (mask : list bool) : list nat :=
  match mask with
  | [] => []
  | true :: m => i :: where_from (S i) m
  | false :: m => where_from (S i) m
  end.
Definition where_ (mask : list bool) : list nat := where_from 0 mask.

(** [a[mask]]: boolean indexing. *)
Fixpoint select {A} (mask : list bool) (a : list A) : list A :=
  match mask, a with
  | true :: m, x :: t => x :: select m t
  | false :: m, _ :: t => select m t
  | _, _ => []
  end.

(** [mask.sum()]. *)
Definition sum (mask : list bool) : nat := length (filter (fun b => b) mask).

(** [a.min()] and [a.max()]; both raise [ValueError] on an empty array. *)
Definition amin (a : list Z) : option Z :=
  match a with [] => None | x :: t => Some (fold_left Z.min t x) end.
Definition amax (a : list Z) : option Z :=
  match a with [] => None | x :: t => Some (fold_left Z.max t x) end.

(** [mask[idx] = v] for an index array [idx]. *)
Definition put (idx : list nat) (v : bool) (mask : list bool) : list bool :=
  map (fun jb => if existsb (Nat.eqb (fst jb)) idx then v else snd jb)
      (combine (seq 0 (length mask)) mask).

(** Sorted distinct values, as the first component of [np.unique]. *)
Fixpoint insert_uniq (x : Z) (l : list Z) : list Z :=
  match l with
  | [] => [x]
  | y :: t => if x <? y then x :: l
              else if x =? y then l
              else y :: insert_uniq x t
  end.
Definition sort_uniq (a : list Z) : list Z := fold_right insert_uniq [] a.

Fixpoint index_of (x : Z) (a : list Z) : nat :=
  match a with
  | [] => 0
  | y :: t => if y =? x then 0%nat else S (index_of x t)
  end.

Definition count (x : Z) (a : list Z) : nat := length (filter (Z.eqb x) a).

(** [np.unique(a, return_counts=True, return_index=True)[1:]]: for each
    distinct value in ascending order, the index of its first
    occurrence and the number of its occurrences. *)
Definition unique_index_counts (a : list Z) : list (nat * nat) :=
  map (fun v => (index_of v a, count v a)) (sort_uniq a).

End Np.

(** ** Input files *)

(** One row of the [image] group of a module file: the three id data
    sets have one entry per row of [image/data]. *)
Record row := { trainId : Z; cellId : Z; pulseId : Z }.

Record h5file := {
  fname : string;
  INDEX_trainId : list Z;   (* f['INDEX/trainId'][:] *)
  image : list row          (* image/trainId, cellId, pulseId, row-aligned with image/data *)
}.

Definition MAX_TRAINS_IN_FILE : Z := 260.
Definition maxsize : Z := 2 ^ 63 - 1.        (* sys.maxsize *)
Definition npulses : nat := 128.
Definition chunk_size : nat := 32.
Definition NMODULES : nat := 16.
Definition FILL : Z := 65535.

(** ** Float64 evaluation *)

Module Float64.

(** The float64 nearest to the integer [x], with ties going to the
    even mantissa of 53 bits.  An integer of magnitude at most 2^53
    is its own float64. *)
Definition round (x : Z) : Z :=
  let a := Z.abs x in
  if a <=? 2 ^ 53 then x
  else
    let e := Z.log2 a - 52 in
    let q := a / 2 ^ e in
    let r := a mod 2 ^ e in
    let up := (2 * r >? 2 ^ e) || ((2 * r =? 2 ^ e) && Z.odd q) in
    Z.sgn x * ((if up then q + 1 else q) * 2 ^ e).

(** [a < b] between a [uint64] and a Python integer or a float64. *)
Definition ltb (a b : Z) : bool := round a <? round b.

(** [min(a, x)] of lines 50, 54 and 56 while [a] is still the Python
    integer [sys.maxsize] and [x] is a [uint64] scalar: [x] replaces
    [a] when [x < a]. *)
Definition min_maxsize (x : Z) : Z := if ltb x maxsize then x else maxsize.

(** Line 59, [tmax - tmin].  [tmax] is a [uint64] scalar once a file
    has raised it above the Python integer [0], [tmin] once a file
    has lowered it below the Python integer [sys.maxsize]: the
    difference wraps around between two [uint64] scalars, is exact
    between the two Python integers and is a float64 otherwise. *)
Definition span (lo hi : Z) : Z :=
  if (0 <? hi) && (lo <? maxsize) then Np.wrap64 (hi - lo)
  else if (0 <? hi) || (lo <? maxsize) then round (round hi - round lo)
  else hi - lo.

(** Line 61 for a [uint64] scalar [ftrain]: a float64. *)
Definition ltrain (ftrain ntrains : Z) : Z :=
  round (round ftrain + round ntrains).

(** Line 101: [tid > 0] is a comparison of [uint64] values,
    [tid < ltrain] one of float64 values. *)
Definition sel0 (ftrain ntrains : Z) (tid : list Z) : list bool :=
  map (fun t => (0 <? t) && ltb t (ltrain ftrain ntrains)) tid.

(** Line 63, [np.arange(ftrain, ftrain+ntrains, dtype='u8')] for a
    [uint64] scalar [ftrain].  The length is the float64
    [stop - start]; the second entry is the float64 [start + 1]
    stored as [u8]; the entries go on in [u8] steps of the difference
    of the first two. *)
Definition arange_len (ftrain ntrains : Z) : nat :=
  Z.to_nat (round (ltrain ftrain ntrains - round ftrain)).
Definition arange_step (ftrain : Z) : Z :=
  Np.wrap64 (round (round ftrain + 1) - ftrain).
Definition arange (ftrain ntrains : Z) : list Z :=
  map (fun k => Np.wrap64 (ftrain + Z.of_nat k * arange_step ftrain))
      (seq 0 (arange_len ftrain ntrains)).

End Float64.

(** The train ids of the index files are [uint64] values below 2^53:
    the comparisons of the scan (lines 38-60) are then exact. *)
Definition index_ids_exact (ms : list (list h5file)) : Prop :=
  forall fl f t, In fl ms -> In f fl -> In t (INDEX_trainId f) -> 0 <= t < 2 ^ 53.

Definition index_ids_exactb (ms : list (list h5file)) : bool :=
  forallb (fun fl =>
    forallb (fun f =>
      forallb (fun t => (0 <=? t) && (t <? 2 ^ 53)) (INDEX_trainId f)) fl) ms.

(** The timeline [ftrain, ftrain + ntrains) ends at or below 2^53:
    [ltrain] (line 61), the entries of [np.arange] (line 63) and the
    comparison [tid < ltrain] (line 101) are then exact. *)
Definition timeline_exact (ftrain ntrains : Z) : Prop :=
  0 <= ftrain /\ 0 <= ntrains /\ ftrain + ntrains <= 2 ^ 53.

(** ** Extent of the run (lines 38-62) *)

Module Timeline.

(** The three variables the scan carries. *)
Record scan := { ftrain : Z; tmin : Z; tmax : Z }.

(** Body of the loop over the files of one module.  [lastname] is
    [flist[-1]].  [None] is the [ValueError] of [tid.max()] on an
    empty array.  [min] and [max] compare a [uint64] scalar with the
    Python integers [sys.maxsize] and [0] in float64
    ([Float64.min_maxsize]); [Z.min] and [Z.max] are these for train
    ids below 2^53 ([index_ids_exact]). *)
Definition file_step (lastname : string) (s : scan) (f : h5file) : option scan :=
  let tid := INDEX_trainId f in
  match Np.amax tid, Np.amin tid with
  | Some mx, Some mn =>
      if mx - mn >? MAX_TRAINS_IN_FILE then
        let tmin1 := if mn >? 0 then Z.min (tmin s) mn else tmin s in
        let tmax1 := if String.eqb (fname f) lastname
                     then Z.max (tmax s) (last tid 0) else tmax s in
        Some {| ftrain := ftrain s; tmin := tmin1; tmax := tmax1 |}
      else
        let tmin1 := Z.min (tmin s) mn in
        let tmax1 := Z.max (tmax s) mx in
        Some {| ftrain := Z.min (ftrain s) tmin1; tmin := tmin1; tmax := tmax1 |}
  | _, _ => None
  end.

Fixpoint files_loop (lastname : string) (s : scan) (fl : list h5file) : option scan :=
  match fl with
  | [] => Some s
  | f :: rest =>
      match file_step lastname s f with
      | Some s1 => files_loop lastname s1 rest
      | None => None
      end
  end.

Definition lastname_of (fl : list h5file) : string :=
  fname (last fl {| fname := EmptyString; INDEX_trainId := []; image := [] |}).

(** [tmax - tmin] at line 59.  [tmin] and [tmax] start as the Python
    integers [sys.maxsize] and [0]; [min] and [max] replace them by a
    NumPy [uint64] scalar as soon as a file lowers [tmin] or raises
    [tmax].  Between two [uint64] scalars the difference wraps
    around; between the two Python integers it is exact; with a
    Python integer on one side only it is a float64
    ([Float64.span]), which for train ids below 2^53 is [-tmin] (when
    [tmax] is still [0]) or lies below [-1] as the exact difference
    does (when [tmin] is still [sys.maxsize]), so that line 60 keeps
    the same maximum. *)
Definition span (lo hi : Z) : Z :=
  if (0 <? hi) && (lo <? maxsize) then Np.wrap64 (hi - lo) else hi - lo.

(** Body of the loop over the modules: [(ntrains, ftrain)] before and
    after module [flist]. *)
Definition module_step (acc : Z * Z) (flist : list h5file) : option (Z * Z) :=
  let '(ntrains, ft) := acc in
  match files_loop (lastname_of flist)
                   {| ftrain := ft; tmin := maxsize; tmax := 0 |} flist with
  | Some s => Some (Z.max ntrains (span (tmin s) (tmax s)), ftrain s)
  | None => None
  end.

Fixpoint modules_loop (acc : Z * Z) (ms : list (list h5file)) : option (Z * Z) :=
  match ms with
  | [] => Some acc
  | fl :: rest =>
      match module_step acc fl with
      | Some acc1 => modules_loop acc1 rest
      | None => None
      end
  end.

(** Lines 38-60: [(ftrain, ntrains)] of the run. *)
Definition build (ms : list (list h5file)) : option (Z * Z) :=
  match modules_loop (-1, maxsize) ms with
  | Some (ntrains, ft) => Some (ft, ntrains + 4)
  | None => None
  end.

End Timeline.

(** *** The timeline rule in closed form

    What the scan above amounts to, written without loop state; the
    two are proved equal below. *)

Module TimelineRule.

Definition lo (f : h5file) : Z :=
  match Np.amin (INDEX_trainId f) with Some x => x | None => 0 end.
Definition hi (f : h5file) : Z :=
  match Np.amax (INDEX_trainId f) with Some x => x | None => 0 end.

(** The file's own span exceeds the limit. *)
Definition oversized (f : h5file) : bool := hi f - lo f >? MAX_TRAINS_IN_FILE.

Definition list_min (d : Z) (l : list Z) : Z := fold_right Z.min d l.
Definition list_max (d : Z) (l : list Z) : Z := fold_right Z.max d l.

(** Minimum of a module: the minima of its files within the limit and
    the positive minima of its oversized files. *)
Definition mod_tmin (fl : list h5file) : Z :=
  list_min maxsize
    (map lo (filter (fun f => negb (oversized f) || (lo f >? 0)) fl)).

(** Maximum of a module: the maxima of its files within the limit,
    and the last sample of an oversized file named as the last file. *)
Definition mod_tmax_with (lastname : string) (fl : list h5file) : Z :=
  list_max 0
    (map (fun f => if oversized f then last (INDEX_trainId f) 0 else hi f)
         (filter (fun f => negb (oversized f) || String.eqb (fname f) lastname) fl)).
Definition mod_tmax (fl : list h5file) : Z :=
  mod_tmax_with (Timeline.lastname_of fl) fl.

Definition has_within (fl : list h5file) : bool :=
  existsb (fun f => negb (oversized f)) fl.

(** The files of a module up to its last file within the limit. *)
Fixpoint through_last_within (fl : list h5file) : list h5file :=
  match fl with
  | [] => []
  | f :: rest =>
      if negb (oversized f) || has_within rest
      then f :: through_last_within rest else []
  end.

(** What a module contributes to the start of the run. *)
Definition mod_start (fl : list h5file) : Z := mod_tmin (through_last_within fl).

Definition firstTrainId (ms : list (list h5file)) : Z :=
  list_min maxsize (map mod_start ms).

(** The span of a module, in the arithmetic of line 59. *)
Definition mod_span (fl : list h5file) : Z :=
  Timeline.span (mod_tmin fl) (mod_tmax fl).

Definition trainCount (ms : list (list h5file)) : Z :=
  list_max (-1) (map mod_span ms) + 4.

End TimelineRule.

(** ** The canonical timeline arrays (lines 63-65) *)

Section Canonical.

Variable npl : nat.        (* npulses *)
Variable ftrain : Z.
Variable ntrains : Z.

(** Line 61.  The sum of a [uint64] scalar and a Python integer is a
    float64 ([Float64.ltrain]); it is this integer for a timeline
    that ends at or below 2^53 ([timeline_exact]). *)
Definition ltrain : Z := ftrain + ntrains.

(** Line 63.  [np.arange] steps from a [uint64] scalar in float64
    ([Float64.arange]); for a timeline that ends at or below 2^53 the
    entries are these integers. *)
Definition all_trains : list Z :=
  Np.repeat_each (Np.arange ftrain (Z.to_nat ntrains)) npl.

Definition all_cells : list Z :=
  Np.tile (Np.arange 0 npl) (Z.to_nat ntrains).

(** [(t - ftrain)*npulses + c] in unsigned 64-bit arithmetic. *)
Definition flat (t c : Z) : Z :=
  Np.wrap64 (Np.wrap64 (Np.wrap64 (t - ftrain) * Z.of_nat npl) + c).

Definition all_flatid : list Z :=
  map (fun tc => flat (fst tc) (snd tc)) (combine all_trains all_cells).

(** *** Validation of one file's rows (lines 94-105) *)

Definition flatid (rows : list row) : list Z :=
  map (fun r => flat (trainId r) (cellId r)) rows.

(** Line 101.  [tid < ltrain] compares in float64 ([Float64.sel0]);
    for a timeline that ends at or below 2^53 it is this comparison
    of integers, whatever the train ids of the rows. *)
Definition sel0 (tid : list Z) : list bool :=
  map (fun t => (0 <? t) && (t <? ltrain)) tid.

(** Lines 102-105. *)
Definition repeated (tid : list Z) : list nat :=
  map fst (filter (fun ic => (npl <? snd ic)%nat) (Np.unique_index_counts tid)).

(** Row [j] is among the occurrences of [w] after the first [npl]. *)
Definition late (tid : list Z) (w : Z) (j : nat) : bool :=
  existsb (Nat.eqb j) (skipn npl (Np.where_ (map (fun t => t =? w) tid))).

Definition dedup_step (tid : list Z) (sel : list bool) (i : nat) : list bool :=
  Np.put (skipn npl (Np.where_ (map (fun t => t =? nth i tid 0) tid))) false sel.

Definition validate (tid : list Z) : list bool :=
  fold_left (dedup_step tid) (repeated tid) (sel0 tid).

End Canonical.

(** ** Composition of the virtual layout (lines 77-140) *)

(** A row of [image/data] of one input file. *)
Record source := { src_file : string; src_row : nat }.

(** The virtual layout: the assignments [layout_data[m, chunk_ind] = ...]
    made so far, the newest first, one entry per destination
    [(module, canonical position)]. *)
Definition layout : Type := list ((nat * nat) * source).

Record state := {
  layout_data : layout;
  outdset_cid : list Z;
  outdset_pid : list Z
}.

(** The message of line 120: file, chunk, number of chunks and the two
    counts. *)
Record mismatch := {
  mm_file : string; mm_chunk : nat; mm_chunks : nat; mm_sel : nat; mm_ind : nat
}.

(** How a loop body ends: it falls through, [main] returns at line 121,
    or an exception escapes. *)
Inductive outcome (A : Type) : Type :=
| Next (a : A)
| Returned (msg : mismatch) (a : A)
| Raised (a : A).
Arguments Next {A} a.
Arguments Returned {A} msg a.
Arguments Raised {A} a.

(** The values [vals], in order, at the true entries of [mask]. *)
Fixpoint scatter (dst : list Z) (mask : list bool) (vals : list Z) : list Z :=
  match dst, mask with
  | d :: ds, true :: ms =>
      match vals with
      | v :: vs => v :: scatter ds ms vs
      | [] => d :: scatter ds ms []
      end
  | d :: ds, false :: ms => d :: scatter ds ms vals
  | _, _ => dst
  end.

(** Writing [vals] to a data set through a boolean mask, as h5py does
    it: an empty selection returns at once; otherwise a point selection
    whose number of points differs from the number of values is refused
    ("Broadcasting is not supported for point-wise selections"). *)
Definition mask_write (dst : list Z) (mask : list bool) (vals : list Z)
  : option (list Z) :=
  if (Np.sum mask =? 0)%nat then Some dst
  else if (Np.sum mask =? length vals)%nat then Some (scatter dst mask vals)
  else None.

(** [frameCount = ntrains * npulses]. *)
Definition frames (npl : nat) (nt : Z) : nat := (Z.to_nat nt * npl)%nat.

Definition num_chunks (nrows : nat) : nat :=
  ((nrows + (chunk_size - 1)) / chunk_size)%nat.   (* int(np.ceil(nrows / chunk_size)) *)

Section Compose.

Variable npl : nat.
Variable ftrain : Z.
Variable ntrains : Z.

(** Lines 116-117: the validity mask restricted to rows [st, en). *)
Definition chunk_sel (sel : list bool) (st en : nat) : list bool :=
  map (fun jb => (st <=? fst jb)%nat && (fst jb <? en)%nat && snd jb)
      (combine (seq 0 (length sel)) sel).

(** Line 118. *)
Definition chunk_ind (rows : list row) (csel : list bool) : list nat :=
  Np.where_ (Np.in1d (all_flatid npl ftrain ntrains)
                     (Np.select csel (flatid npl ftrain rows))).

(** Line 128: the rows picked by [csel], in row order, go to the
    destinations [cind], in ascending order. *)
Definition assign (m : nat) (fn : string) (cind : list nat) (csel : list bool)
           (L : layout) : layout :=
  combine (map (pair m) cind)
          (map (fun r => {| src_file := fn; src_row := r |}) (Np.where_ csel)) ++ L.

(** The mask of chunk number [chunk], and whether its two counts of
    line 119 differ. *)
Definition chunk_rows (nrows : nat) (sel : list bool) (chunk : nat) : list bool :=
  chunk_sel sel (chunk * chunk_size) (Nat.min nrows ((chunk + 1) * chunk_size)).

Definition chunk_mismatch (f : h5file) (sel : list bool) (chunk : nat) : bool :=
  let csel := chunk_rows (length (image f)) sel chunk in
  negb (Np.sum csel =? length (chunk_ind (image f) csel))%nat.

(** Lines 115-128: one chunk. *)
Definition chunk_step (m : nat) (f : h5file) (sel : list bool) (chunk : nat)
           (L : layout) : outcome layout :=
  let nrows := length (image f) in
  let st := (chunk * chunk_size)%nat in
  let en := Nat.min nrows ((chunk + 1) * chunk_size) in
  let csel := chunk_sel sel st en in
  let cind := chunk_ind (image f) csel in
  if negb (Np.sum csel =? length cind)%nat then
    Returned {| mm_file := fname f; mm_chunk := chunk;
                mm_chunks := num_chunks nrows;
                mm_sel := Np.sum csel; mm_ind := length cind |} L
  else if (Np.sum csel =? 0)%nat then Next L
  else Next (assign m (fname f) cind csel L).

Fixpoint chunks_loop (m : nat) (f : h5file) (sel : list bool)
         (chunks : list nat) (L : layout) : outcome layout :=
  match chunks with
  | [] => Next L
  | c :: rest =>
      match chunk_step m f sel c L with
      | Next L1 => chunks_loop m f sel rest L1
      | stop => stop
      end
  end.

(** Lines 109 and 132-133: every canonical position whose train is one
    of [tid_s]. *)
Definition meta_indices (tid_s : list Z) : list nat :=
  Np.where_ (Np.in1d (all_trains npl ftrain ntrains) tid_s).

Definition sel_indices (tid_s : list Z) : list bool :=
  Np.put (meta_indices tid_s) true
         (repeat false (length (all_trains npl ftrain ntrains))).

(** The validity mask of a file, and the statement that none of its
    chunks has differing counts. *)
Definition file_mask (f : h5file) : list bool :=
  validate npl ftrain ntrains (map trainId (image f)).


(** Lines 90-137: one file of module [m]. *)
Definition process_file (m : nat) (st : state) (f : h5file) : outcome state :=
  let rows := image f in
  let tid := map trainId rows in
  let sel := validate npl ftrain ntrains tid in
  if (Np.sum sel =? 0)%nat then Next st
  else
    let tid_s := Np.select sel tid in
    match chunks_loop m f sel (seq 0 (num_chunks (length rows))) (layout_data st) with
    | Returned msg L =>
        Returned msg {| layout_data := L; outdset_cid := outdset_cid st;
                        outdset_pid := outdset_pid st |}
    | Raised L =>
        Raised {| layout_data := L; outdset_cid := outdset_cid st;
                  outdset_pid := outdset_pid st |}
    | Next L =>
        let cid := Np.select sel (map cellId rows) in
        let pid := Np.select sel (map pulseId rows) in
        match mask_write (outdset_cid st) (sel_indices tid_s) cid with
        | None => Raised {| layout_data := L; outdset_cid := outdset_cid st;
                            outdset_pid := outdset_pid st |}
        | Some c1 =>
            match mask_write (outdset_pid st) (sel_indices tid_s) pid with
            | None => Raised {| layout_data := L; outdset_cid := c1;
                                outdset_pid := outdset_pid st |}
            | Some p1 => Next {| layout_data := L; outdset_cid := c1;
                                 outdset_pid := p1 |}
            end
        end
    end.

Fixpoint files_loop (m : nat) (st : state) (fl : list h5file) : outcome state :=
  match fl with
  | [] => Next st
  | f :: rest =>
      match process_file m st f with
      | Next st1 => files_loop m st1 rest
      | stop => stop
      end
  end.

(** Lines 87-137: the modules [ms], each with its sorted file list. *)
Fixpoint modules_loop (glob : nat -> list h5file) (ms : list nat) (st : state)
  : outcome state :=
  match ms with
  | [] => Next st
  | m :: rest =>
      match files_loop m st (glob m) with
      | Next st1 => modules_loop glob rest st1
      | stop => stop
      end
  end.

(** Module [m] supplies a frame for canonical position [p]: a
    surviving row of one of its files computes position [p]. *)
Definition supplies (glob : nat -> list h5file) (m p : nat) : Prop :=
  exists f, In f (glob m) /\
    In (Z.of_nat p) (Np.select (file_mask f) (flatid npl ftrain (image f))).

(** A file of one of the modules [ms] has a surviving row of the
    train of canonical position [p]. *)
Definition train_seen (glob : nat -> list h5file) (ms : list nat) (p : nat) : Prop :=
  exists m f, In m ms /\ In f (glob m) /\
    In (nth p (all_trains npl ftrain ntrains) 0)
       (Np.select (file_mask f) (map trainId (image f))).

(** Every entry of the layout comes from a module that supplies it. *)
Definition layout_ok (glob : nat -> list h5file) (L : layout) : Prop :=
  forall m p s, In ((m, p), s) L -> supplies glob m p.

(** The two id arrays hold 65535 wherever no file of the modules
    [ms] has a surviving row of that position's train. *)
Definition ids_ok (glob : nat -> list h5file) (ms : list nat) (st : state) : Prop :=
  forall p, (p < frames npl ntrains)%nat -> ~ train_seen glob ms p ->
            nth p (outdset_cid st) 0 = FILL /\ nth p (outdset_pid st) 0 = FILL.

(** Lines 80-86: the empty layout and the two id arrays filled with
    65535. *)
Definition init_state : state :=
  {| layout_data := [];
     outdset_cid := repeat FILL (frames npl ntrains);
     outdset_pid := repeat FILL (frames npl ntrains) |}.

End Compose.

(** ** The output file and the whole run *)

(** The data sets of the output file under [INSTRUMENT/<det>/DET/image];
    [out_data] is the virtual data set, created at line 139 only. *)
Record h5out := {
  out_trainId : list Z;
  out_cellId : list Z;
  out_pulseId : list Z;
  out_data : option layout
}.

Inductive exit : Type :=
| Finished                       (* line 140 reached *)
| Aborted (msg : mismatch)       (* return at line 121 *)
| Crashed.                       (* uncaught exception *)

Definition artifact (npl : nat) (ft nt : Z) (st : state) (data : bool) : h5out :=
  {| out_trainId := all_trains npl ft nt;
     out_cellId := outdset_cid st;
     out_pulseId := outdset_pid st;
     out_data := if data then Some (layout_data st) else None |}.

(** [main], given for each module number the sorted list of its files.
    The second component is the file at [out_fname] when the process
    ends, [None] if line 77 was never reached. *)
Definition run (npl : nat) (modules : list nat) (glob : nat -> list h5file)
  : exit * option h5out :=
  match Timeline.build (map glob modules) with
  | None => (Crashed, None)
  | Some (ft, nt) =>
      match glob 0%nat with
      | [] => (Crashed, None)         (* line 67: IndexError *)
      | _ :: _ =>
          match modules_loop npl ft nt glob modules (init_state npl nt) with
          | Next st => (Finished, Some (artifact npl ft nt st true))
          | Returned msg st => (Aborted msg, Some (artifact npl ft nt st false))
          | Raised st => (Crashed, Some (artifact npl ft nt st false))
          end
      end
  end.

Definition main (glob : nat -> list h5file) : exit * option h5out :=
  run npulses (seq 0 NMODULES) glob.

(** Reading the output. *)
Inductive frame : Type :=
| FromRow (s : source)        (* the pixels of that input row *)
| FillValue (v : Z).

Fixpoint layout_lookup (L : layout) (m p : nat) : option source :=
  match L with
  | [] => None
  | ((m1, p1), s) :: rest =>
      if ((m1 =? m) && (p1 =? p))%nat then Some s else layout_lookup rest m p
  end.

(** Line 139: [fillvalue=np.iinfo(np.uint16).max]. *)
Definition read_data (L : layout) (m p : nat) : frame :=
  match layout_lookup L m p with
  | Some s => FromRow s
  | None => FillValue FILL
  end.

(** ** Sample inputs *)

(** A module file whose index starts at train 10 and whose image group
    holds one row stamped with train 3. *)
Definition low_train_file : h5file :=
  {| fname := "AGIPD00-S00000.h5";
     INDEX_trainId := [10; 11];
     image := [ {| trainId := 3; cellId := 0; pulseId := 0 |} ] |}.

Definition low_train_glob (m : nat) : list h5file :=
  match m with O => [low_train_file] | _ => [] end.

(** A module with one file within the limit, and a module whose only
    file spans 300 trains. *)
Definition steady_file : h5file :=
  {| fname := "AGIPD00-S00000.h5"; INDEX_trainId := [200; 205; 210]; image := [] |}.
Definition wide_file : h5file :=
  {| fname := "AGIPD01-S00000.h5"; INDEX_trainId := [100; 400]; image := [] |}.

(** A file whose [INDEX/trainId] holds no entry. *)
Definition empty_index_file : h5file :=
  {| fname := "AGIPD01-S00001.h5"; INDEX_trainId := []; image := [] |}.
Definition empty_index_glob (m : nat) : list h5file :=
  match m with
  | 0%nat => [steady_file]
  | 1%nat => [wide_file; empty_index_file]
  | _ => []
  end.

(** Train 100 in full, 128 rows, where row 32 repeats cell 0 of row 0
    instead of carrying cell 32. *)
Definition repeated_cell_file : h5file :=
  {| fname := "AGIPD00-S00000.h5";
     INDEX_trainId := [100];
     image := map (fun j => {| trainId := 100;
                               cellId := if (j =? 32)%nat then 0 else Z.of_nat j;
                               pulseId := Z.of_nat j |}) (seq 0 128) |}.

Definition repeated_cell_glob (m : nat) : list h5file :=
  match m with O => [repeated_cell_file] | _ => [] end.



(** A module with two files: train 100 in full, then one row stamped
    with train 99. *)
Definition full_train_file : h5file :=
  {| fname := "AGIPD00-S00000.h5";
     INDEX_trainId := [100];
     image := map (fun j => {| trainId := 100; cellId := Z.of_nat j;
                               pulseId := Z.of_nat (8 * j) |}) (seq 0 128) |}.

Definition stray_only_file : h5file :=
  {| fname := "AGIPD00-S00001.h5";
     INDEX_trainId := [101];
     image := [ {| trainId := 99; cellId := 0; pulseId := 0 |} ] |}.

Definition full_train_glob (m : nat) : list h5file :=
  match m with O => [full_train_file] | _ => [] end.

Definition late_abort_glob (m : nat) : list h5file :=
  match m with O => [full_train_file; stray_only_file] | _ => [] end.




(** Whether a list of positions is strictly ascending. *)
Fixpoint ascending (l : list Z) : bool :=
  match l with
  | x :: ((y :: _) as t) => (x <? y) && ascending t
  | _ => true
  end.

(** ** Well-formed input and what the layout owes it *)

(** The state a loop body ends with, however it ends. *)
Definition outcome_state {A : Type} (o : outcome A) : A :=
  match o with Next a => a | Returned _ a => a | Raised a => a end.

Section Wellformed.

Variable npl : nat.
Variable ftrain : Z.
Variable ntrains : Z.
Variable glob : nat -> list h5file.

(** The entry [(m, p) -> s] maps a position of the timeline to a
    surviving row of a file of module [m]. *)
Definition entry_from (m p : nat) (s : source) : Prop :=
  (p < frames npl ntrains)%nat /\
  exists f, In f (glob m) /\ src_file s = fname f /\
            nth (src_row s) (file_mask npl ftrain ntrains f) false = true.

(** Every entry of the layout is such an entry of one of the modules
    [ms]. *)
Definition entries_from (ms : list nat) (L : layout) : Prop :=
  forall m p s, In ((m, p), s) L -> In m ms /\ entry_from m p s.



(** In every chunk of the file the positions of the valid rows ascend
    in row order. *)
Definition chunks_ascend (f : h5file) : Prop :=
  forall c,
    ascending (Np.select (chunk_rows (length (image f))
                                     (file_mask npl ftrain ntrains f) c)
                         (flatid npl ftrain (image f))) = true.


End Wellformed.

(** The two id arrays of [st'] are as long as those of [st]. *)
Definition same_lengths (st st' : state) : Prop :=
  length (outdset_cid st') = length (outdset_cid st) /\
  length (outdset_pid st') = length (outdset_pid st).



(** * Properties *)

(** ** Float64 evaluation below 2^53 *)

Module Float64Facts.

Lemma round_exact x : Z.abs x <= 2 ^ 53 -> Float64.round x = x.
Proof.
  intros H. unfold Float64.round. cbv zeta.
  apply Z.leb_le in H. rewrite H. reflexivity.
Qed.

(** Rounding never takes an integer above 2^53 below it. *)
Lemma round_large x : 2 ^ 53 < x -> 2 ^ 53 <= Float64.round x.
Proof.
  intros H.
  assert (E53 : 2 ^ 53 = 2 ^ 52 * 2) by reflexivity.
  assert (P52 : 0 < 2 ^ 52) by reflexivity.
  unfold Float64.round. cbv zeta.
  rewrite Z.abs_eq by lia.
  assert (Hle : (x <=? 2 ^ 53) = false) by (apply Z.leb_gt; exact H).
  rewrite Hle.
  assert (Hs : Z.sgn x = 1) by (apply Z.sgn_pos; lia).
  rewrite Hs, Z.mul_1_l.
  assert (Hlog : 53 <= Z.log2 x).
  { rewrite <- (Z.log2_pow2 53) by lia. apply Z.log2_le_mono. lia. }
  set (e := Z.log2 x - 52).
  assert (He : 1 <= e) by (unfold e; lia).
  assert (Hpe : 2 <= 2 ^ e).
  { change 2 with (2 ^ 1) at 1. apply Z.pow_le_mono_r; lia. }
  assert (Hx : 2 ^ 52 * 2 ^ e <= x).
  { rewrite <- Z.pow_add_r by lia.
    replace (52 + e) with (Z.log2 x) by (unfold e; lia).
    apply Z.log2_spec. lia. }
  assert (Hq : 2 ^ 52 <= x / 2 ^ e).
  { apply Z.div_le_lower_bound; [lia|]. rewrite Z.mul_comm. exact Hx. }
  destruct ((2 * (x mod 2 ^ e) >? 2 ^ e) ||
            ((2 * (x mod 2 ^ e) =? 2 ^ e) && Z.odd (x / 2 ^ e))); nia.
Qed.

(** The float64 comparison of two [uint64] values is the comparison
    of the integers when the left one is below 2^53 or the right one
    is at most 2^53. *)
Lemma ltb_exact a b :
  0 <= a -> 0 <= b -> a < 2 ^ 53 \/ b <= 2 ^ 53 ->
  Float64.ltb a b = (a <? b).
Proof.
  intros Ha Hb Hab. unfold Float64.ltb.
  destruct (Z_le_gt_dec a (2 ^ 53)) as [Ha53 | Ha53];
    destruct (Z_le_gt_dec b (2 ^ 53)) as [Hb53 | Hb53].
  - rewrite !round_exact by (rewrite Z.abs_eq; lia). reflexivity.
  - assert (a < 2 ^ 53) by lia.
    rewrite (round_exact a) by (rewrite Z.abs_eq; lia).
    pose proof (round_large b ltac:(lia)).
    transitivity true; [apply Z.ltb_lt | symmetry; apply Z.ltb_lt]; lia.
  - rewrite (round_exact b) by (rewrite Z.abs_eq; lia).
    pose proof (round_large a ltac:(lia)).
    transitivity false; [apply Z.ltb_ge | symmetry; apply Z.ltb_ge]; lia.
  - lia.
Qed.

(** Lines 50, 54 and 56: a train id below 2^53 replaces
    [sys.maxsize]. *)
Lemma min_maxsize_exact x :
  0 <= x < 2 ^ 53 -> Float64.min_maxsize x = Z.min maxsize x.
Proof.
  intros Hx. unfold Float64.min_maxsize.
  assert (Hm : 2 ^ 53 < maxsize) by reflexivity.
  rewrite ltb_exact by (try (left; lia); try lia).
  assert (E : (x <? maxsize) = true) by (apply Z.ltb_lt; lia).
  rewrite E. symmetry. apply Z.min_r. lia.
Qed.

Lemma round_small x : x < - 2 ^ 53 -> Float64.round x <= - 2 ^ 53.
Proof.
  intros H.
  assert (P52 : 0 < 2 ^ 52) by reflexivity.
  assert (E53 : 2 ^ 53 = 2 ^ 52 * 2) by reflexivity.
  unfold Float64.round. cbv zeta.
  rewrite Z.abs_neq by lia.
  assert (Hle : (- x <=? 2 ^ 53) = false) by (apply Z.leb_gt; lia).
  rewrite Hle.
  assert (Hs : Z.sgn x = -1) by (apply Z.sgn_neg; lia).
  rewrite Hs.
  assert (Hlog : 53 <= Z.log2 (- x)).
  { rewrite <- (Z.log2_pow2 53) by lia. apply Z.log2_le_mono. lia. }
  set (e := Z.log2 (- x) - 52).
  assert (He : 1 <= e) by (unfold e; lia).
  assert (Hpe : 2 <= 2 ^ e).
  { change 2 with (2 ^ 1) at 1. apply Z.pow_le_mono_r; lia. }
  assert (Hx : 2 ^ 52 * 2 ^ e <= - x).
  { rewrite <- Z.pow_add_r by lia.
    replace (52 + e) with (Z.log2 (- x)) by (unfold e; lia).
    apply Z.log2_spec. lia. }
  assert (Hq : 2 ^ 52 <= - x / 2 ^ e).
  { apply Z.div_le_lower_bound; [lia|]. rewrite Z.mul_comm. exact Hx. }
  destruct ((2 * (- x mod 2 ^ e) >? 2 ^ e) ||
            ((2 * (- x mod 2 ^ e) =? 2 ^ e) && Z.odd (- x / 2 ^ e))); nia.
Qed.

(** Line 59 and 60: for a minimum that is [sys.maxsize] or below 2^53
    and a maximum below 2^53, the float64 difference has the effect
    of the exact one on the maximum of line 60. *)
Lemma span_exact n lo hi :
  -1 <= n ->
  lo = maxsize \/ 0 <= lo < 2 ^ 53 ->
  0 <= hi < 2 ^ 53 ->
  Z.max n (Float64.span lo hi) = Z.max n (Timeline.span lo hi).
Proof.
  intros Hn Hlo Hhi. unfold Float64.span, Timeline.span.
  assert (Hm : 2 ^ 53 < maxsize) by reflexivity.
  assert (Em : Float64.round maxsize = 2 ^ 63) by reflexivity.
  assert (E63 : 2 ^ 53 + 2 ^ 53 < 2 ^ 63) by reflexivity.
  destruct (0 <? hi) eqn:E1; destruct (lo <? maxsize) eqn:E2; simpl; try reflexivity.
  - apply Z.ltb_lt in E1. apply Z.ltb_ge in E2.
    assert (lo = maxsize) by lia. subst lo.
    rewrite (round_exact hi) by (rewrite Z.abs_eq; lia). rewrite Em.
    pose proof (round_small (hi - 2 ^ 63) ltac:(lia)).
    unfold maxsize in *. lia.
  - apply Z.ltb_ge in E1. apply Z.ltb_lt in E2.
    assert (hi = 0) by lia. subst hi.
    destruct Hlo as [-> | Hlo]; [lia|].
    rewrite (round_exact lo) by (rewrite Z.abs_eq; lia).
    rewrite (round_exact 0) by (vm_compute; discriminate).
    rewrite round_exact by (rewrite Z.abs_neq; lia). reflexivity.
Qed.

(** Line 61. *)
Lemma ltrain_exact ft nt :
  timeline_exact ft nt -> Float64.ltrain ft nt = ltrain ft nt.
Proof.
  intros (Hf & Hn & Hl). unfold Float64.ltrain, ltrain.
  rewrite (round_exact ft), (round_exact nt) by (rewrite Z.abs_eq; lia).
  apply round_exact. rewrite Z.abs_eq; lia.
Qed.

(** Line 101, for rows with any train ids. *)
Lemma sel0_exact ft nt tid :
  timeline_exact ft nt -> Float64.sel0 ft nt tid = sel0 ft nt tid.
Proof.
  intros H. unfold Float64.sel0, sel0. apply map_ext. intros t.
  rewrite (ltrain_exact ft nt H).
  destruct H as (Hf & Hn & Hl). unfold ltrain.
  destruct (0 <? t) eqn:E; [|reflexivity]. apply Z.ltb_lt in E.
  rewrite ltb_exact by (try (right; lia); lia). reflexivity.
Qed.

(** Line 63. *)
Lemma arange_exact ft nt :
  timeline_exact ft nt -> Float64.arange ft nt = Np.arange ft (Z.to_nat nt).
Proof.
  intros H. unfold Float64.arange, Float64.arange_len, Np.arange.
  rewrite (ltrain_exact ft nt H).
  destruct H as (Hf & Hn & Hl). unfold ltrain.
  rewrite (round_exact ft) by (rewrite Z.abs_eq; lia).
  replace (ft + nt - ft) with nt by lia.
  rewrite (round_exact nt) by (rewrite Z.abs_eq; lia).
  apply map_ext_in. intros k Hk. apply in_seq in Hk.
  assert (Hk' : Z.of_nat k < nt) by lia.
  assert (E64 : 2 ^ 53 < 2 ^ 64) by reflexivity.
  unfold Float64.arange_step.
  rewrite (round_exact ft) by (rewrite Z.abs_eq; lia).
  rewrite (round_exact (ft + 1)) by (rewrite Z.abs_eq; lia).
  replace (ft + 1 - ft) with 1 by lia.
  unfold Np.wrap64. rewrite (Z.mod_small 1) by (split; [lia | reflexivity]).
  rewrite Z.mul_1_r. apply Z.mod_small. lia.
Qed.

End Float64Facts.

Lemma index_ids_exactb_spec ms :
  index_ids_exactb ms = true -> index_ids_exact ms.
Proof.
  unfold index_ids_exactb, index_ids_exact. intros H fl f t Hfl Hf Ht.
  rewrite forallb_forall in H. specialize (H fl Hfl).
  rewrite forallb_forall in H. specialize (H f Hf).
  rewrite forallb_forall in H. specialize (H t Ht).
  apply andb_true_iff in H. destruct H as [H1 H2].
  apply Z.leb_le in H1. apply Z.ltb_lt in H2. split; assumption.
Qed.

(** The bound on the index files of a run restricts to each module. *)
Lemma index_ids_exact_in (glob : nat -> list h5file) (modules : list nat) (m : nat) :
  index_ids_exact (map glob modules) -> In m modules ->
  forall f t, In f (glob m) -> In t (INDEX_trainId f) -> 0 <= t < 2 ^ 53.
Proof.
  intros H Hm f t Hf Ht. apply (H (glob m) f t); [apply in_map, Hm | exact Hf | exact Ht].
Qed.



(** ** Array primitives *)

Lemma length_put idx v mask : length (Np.put idx v mask) = length mask.
Proof.
  unfold Np.put. rewrite length_map, length_combine, length_seq. lia.
Qed.

Lemma nth_combine_seq {A} (l : list A) (d : A) j s :
  (j < length l)%nat ->
  nth j (combine (seq s (length l)) l) (0%nat, d) = ((s + j)%nat, nth j l d).
Proof.
  revert j s. induction l as [|x l IH]; intros j s Hj; simpl in *; [lia|].
  destruct j; simpl.
  - f_equal. lia.
  - rewrite IH by lia. f_equal. lia.
Qed.

Lemma nth_map_lt {A B} (f : A -> B) l j d d' :
  (j < length l)%nat -> nth j (map f l) d = f (nth j l d').
Proof.
  revert j. induction l as [|x l IH]; intros [|j] Hj; simpl in *; try lia; auto.
  apply IH. lia.
Qed.

Lemma nth_put idx v mask j d :
  (j < length mask)%nat ->
  nth j (Np.put idx v mask) d =
  if existsb (Nat.eqb j) idx then v else nth j mask d.
Proof.
  intros Hj. unfold Np.put.
  rewrite nth_map_lt with (d' := (0%nat, d))
    by (rewrite length_combine, length_seq; lia).
  rewrite nth_combine_seq by exact Hj. reflexivity.
Qed.

Lemma sum_cons b m : Np.sum (b :: m) = ((if b then 1 else 0) + Np.sum m)%nat.
Proof. unfold Np.sum. destruct b; reflexivity. Qed.

Lemma in_skipn_where mask : forall n i j,
  In j (skipn n (Np.where_from i mask)) <->
  exists k, j = (i + k)%nat /\ nth k mask false = true /\
            (n <= Np.sum (firstn k mask))%nat.
Proof.
  induction mask as [|b m IH]; intros n i j.
  - simpl. rewrite skipn_nil. split; [intros []|].
    intros (k & _ & Hk & _). destruct k; discriminate.
  - destruct b; simpl Np.where_from.
    + destruct n as [|n]; simpl skipn.
      * simpl In. rewrite (IH 0%nat (S i) j). split.
        -- intros [<- | (k & -> & Hk & _)].
           ++ exists 0%nat. split; [lia|]. split; [reflexivity|]. simpl; lia.
           ++ exists (S k). split; [lia|]. split; [exact Hk|]. lia.
        -- intros (k & -> & Hk & _). destruct k as [|k].
           ++ left. lia.
           ++ right. exists k. split; [lia|]. split; [exact Hk|]. lia.
      * rewrite (IH n (S i) j). split.
        -- intros (k & -> & Hk & Hn). exists (S k).
           split; [lia|]. split; [exact Hk|].
           simpl firstn. rewrite sum_cons. lia.
        -- intros (k & -> & Hk & Hn). destruct k as [|k].
           ++ simpl in Hn. unfold Np.sum in Hn. simpl in Hn. lia.
           ++ simpl firstn in Hn. rewrite sum_cons in Hn.
              exists k. split; [lia|]. split; [exact Hk|]. lia.
    + rewrite (IH n (S i) j). split.
      * intros (k & -> & Hk & Hn). exists (S k).
        split; [lia|]. split; [exact Hk|].
        simpl firstn. rewrite sum_cons. lia.
      * intros (k & -> & Hk & Hn). destruct k as [|k]; [discriminate|].
        simpl firstn in Hn. rewrite sum_cons in Hn.
        exists k. split; [lia|]. split; [exact Hk|]. lia.
Qed.

Lemma in_where mask j :
  In j (Np.where_ mask) <-> nth j mask false = true.
Proof.
  unfold Np.where_. change (Np.where_from 0 mask) with (skipn 0 (Np.where_from 0 mask)).
  rewrite in_skipn_where. split.
  - intros (k & -> & Hk & _). exact Hk.
  - intros H. exists j. repeat split; auto; lia.
Qed.

Lemma sum_firstn_map (p : Z -> bool) l k :
  Np.sum (firstn k (map p l)) = length (filter p (firstn k l)).
Proof.
  revert k. induction l as [|x l IH]; intros [|k]; simpl; try reflexivity.
  rewrite sum_cons, IH. destruct (p x); reflexivity.
Qed.

Lemma in_insert_uniq v x l :
  In v (Np.insert_uniq x l) <-> v = x \/ In v l.
Proof.
  induction l as [|y t IH]; simpl.
  - intuition.
  - destruct (x <? y) eqn:E1; [simpl; intuition|].
    destruct (x =? y) eqn:E2.
    + apply Z.eqb_eq in E2. subst. simpl. intuition.
    + simpl. rewrite IH. intuition.
Qed.

Lemma in_sort_uniq v a : In v (Np.sort_uniq a) <-> In v a.
Proof.
  induction a as [|x a IH]; simpl; [tauto|].
  rewrite in_insert_uniq, IH. intuition.
Qed.

Lemma index_of_spec v a :
  In v a -> (Np.index_of v a < length a)%nat /\ nth (Np.index_of v a) a 0 = v.
Proof.
  induction a as [|y t IH]; simpl; [tauto|].
  intros H. destruct (y =? v) eqn:E.
  - apply Z.eqb_eq in E. split; [lia | exact E].
  - destruct H as [H|H]; [subst; rewrite Z.eqb_refl in E; discriminate|].
    destruct (IH H). split; [lia | assumption].
Qed.

Lemma count_pos_in v a : (0 < Np.count v a)%nat -> In v a.
Proof.
  unfold Np.count. induction a as [|y t IH]; simpl; [lia|].
  destruct (v =? y) eqn:E.
  - apply Z.eqb_eq in E. auto.
  - auto.
Qed.

Lemma count_firstn_le v a k : (Np.count v (firstn k a) <= Np.count v a)%nat.
Proof.
  unfold Np.count. revert k. induction a as [|y t IH]; intros [|k]; simpl; try lia.
  specialize (IH k). destruct (v =? y); simpl; lia.
Qed.

Section ValidatorFacts.

Variable npl : nat.
Variable ft nt : Z.

Lemma length_sel0 tid : length (sel0 ft nt tid) = length tid.
Proof. unfold sel0. apply length_map. Qed.

Lemma length_fold_dedup tid idxs : forall sel,
  length (fold_left (dedup_step npl tid) idxs sel) = length sel.
Proof.
  induction idxs as [|i idxs IH]; intros sel; simpl; [reflexivity|].
  rewrite IH. apply length_put.
Qed.

Lemma length_validate tid : length (validate npl ft nt tid) = length tid.
Proof. unfold validate. rewrite length_fold_dedup. apply length_sel0. Qed.

Lemma late_spec tid w j :
  (j < length tid)%nat ->
  late npl tid w j = true <->
  nth j tid 0 = w /\ (npl <= Np.count w (firstn j tid))%nat.
Proof.
  intros Hj. unfold late. rewrite existsb_exists. split.
  - intros (x & Hin & Hx). apply Nat.eqb_eq in Hx. subst x.
    apply in_skipn_where in Hin. destruct Hin as (k & -> & Hk & Hn).
    simpl in *. rewrite nth_map_lt with (d' := 0) in Hk by exact Hj.
    apply Z.eqb_eq in Hk. split; [exact Hk|].
    rewrite sum_firstn_map in Hn. unfold Np.count.
    erewrite filter_ext; [exact Hn|]. intros a. apply Z.eqb_sym.
  - intros [Hw Hn]. exists j. split; [|apply Nat.eqb_refl].
    apply in_skipn_where. exists j. split; [reflexivity|]. split.
    + rewrite nth_map_lt with (d' := 0) by exact Hj. apply Z.eqb_eq, Hw.
    + rewrite sum_firstn_map. unfold Np.count in Hn.
      erewrite filter_ext; [exact Hn|]. intros a. apply Z.eqb_sym.
Qed.

Lemma fold_dedup_nth tid j idxs : forall sel,
  length sel = length tid -> (j < length tid)%nat ->
  nth j (fold_left (dedup_step npl tid) idxs sel) false =
  nth j sel false && negb (existsb (fun i => late npl tid (nth i tid 0) j) idxs).
Proof.
  induction idxs as [|i idxs IH]; intros sel Hl Hj; simpl.
  - rewrite andb_true_r. reflexivity.
  - rewrite IH by (unfold dedup_step; rewrite ?length_put; assumption).
    unfold dedup_step at 1. rewrite nth_put by lia.
    fold (late npl tid (nth i tid 0) j).
    destruct (late npl tid (nth i tid 0) j); simpl.
    + rewrite andb_false_r. reflexivity.
    + reflexivity.
Qed.

Lemma in_repeated tid i :
  In i (repeated npl tid) <->
  exists v, In v tid /\ i = Np.index_of v tid /\ (npl < Np.count v tid)%nat.
Proof.
  unfold repeated, Np.unique_index_counts. rewrite in_map_iff. split.
  - intros ([i' n] & <- & Hin). apply filter_In in Hin. destruct Hin as [Hin Hn].
    apply in_map_iff in Hin. destruct Hin as (v & Hv & Hin).
    injection Hv as <- <-. apply (proj1 (in_sort_uniq _ _)) in Hin. simpl in *.
    apply Nat.ltb_lt in Hn. exists v. auto.
  - intros (v & Hin & -> & Hn). exists (Np.index_of v tid, Np.count v tid).
    split; [reflexivity|]. apply filter_In. split.
    + apply in_map_iff. exists v. split; [reflexivity|]. apply in_sort_uniq, Hin.
    + apply Nat.ltb_lt. exact Hn.
Qed.

(** A row survives iff its train id is positive and below [ltrain]
    and, when its train id occurs more than [npl] times in the array,
    fewer than [npl] earlier rows carry the same id. *)
Lemma validate_nth tid j :
  (j < length tid)%nat ->
  nth j (validate npl ft nt tid) false =
  nth j (sel0 ft nt tid) false &&
  negb (Nat.ltb npl (Np.count (nth j tid 0) tid) &&
        Nat.leb npl (Np.count (nth j tid 0) (firstn j tid))).
Proof.
  intros Hj. unfold validate.
  rewrite fold_dedup_nth by (rewrite ?length_sel0; auto).
  f_equal. f_equal. apply eq_true_iff_eq.
  rewrite existsb_exists, andb_true_iff, Nat.ltb_lt, Nat.leb_le. split.
  - intros (i & Hi & Hlate). apply in_repeated in Hi.
    destruct Hi as (v & Hv & -> & Hn).
    destruct (index_of_spec v tid Hv) as [_ Hnth]. rewrite Hnth in Hlate.
    apply late_spec in Hlate; [|exact Hj]. destruct Hlate as [-> Hc]. auto.
  - intros [Hn Hc]. set (v := nth j tid 0) in *.
    assert (Hv : In v tid) by (apply count_pos_in; lia).
    exists (Np.index_of v tid). split.
    + apply in_repeated. exists v. auto.
    + destruct (index_of_spec v tid Hv) as [_ Hnth]. rewrite Hnth.
      apply late_spec; [exact Hj|]. split; [reflexivity | exact Hc].
Qed.

Lemma nth_sel0 tid j :
  (j < length tid)%nat ->
  nth j (sel0 ft nt tid) false =
  (0 <? nth j tid 0) && (nth j tid 0 <? ltrain ft nt).
Proof.
  intros Hj. unfold sel0.
  rewrite nth_map_lt with (d' := 0) by exact Hj. reflexivity.
Qed.

End ValidatorFacts.



(** ** RecordValidator *)

(** What line 101 guarantees: a surviving row has a positive train id
    below [ltrain]; in particular rows with train id 0 and rows at or
    beyond the end of the timeline are rejected. *)
Lemma validate_in_upper_range npl ft nt tid j :
  (j < length tid)%nat ->
  nth j (validate npl ft nt tid) false = true ->
  0 < nth j tid 0 < ltrain ft nt.
Proof.
  intros Hj H. rewrite validate_nth, nth_sel0 in H by exact Hj.
  apply andb_true_iff in H. destruct H as [H _].
  apply andb_true_iff in H. destruct H as [H1 H2].
  apply Z.ltb_lt in H1, H2. lia.
Qed.

(** C1 (the code at the failing input).  With [firstTrainId = 10] and
    [trainCount = 5] the row with train id 3 lies below the canonical
    range, yet line 101 keeps it: only [tid > 0] and [tid < ltrain] are
    tested.  Its position wraps around in [u8] arithmetic, no canonical
    slot matches, and the whole run returns at line 121. *)
Theorem C1_row_below_first_train_is_kept :
  Timeline.build (map low_train_glob (seq 0 NMODULES)) = Some (10, 5) /\
  validate npulses 10 5 (map trainId (image low_train_file)) = [true] /\
  flatid npulses 10 (image low_train_file) = [2 ^ 64 - 7 * 128] /\
  fst (main low_train_glob) =
    Aborted {| mm_file := "AGIPD00-S00000.h5"; mm_chunk := 0; mm_chunks := 1;
               mm_sel := 1; mm_ind := 0 |}.
Proof. vm_compute. repeat split; reflexivity. Qed.





(** ** The canonical timeline *)

Lemma length_arange s n : length (Np.arange s n) = n.
Proof. unfold Np.arange. rewrite length_map. apply length_seq. Qed.

Lemma nth_arange s n q :
  (q < n)%nat -> nth q (Np.arange s n) 0 = s + Z.of_nat q.
Proof.
  intros Hq. unfold Np.arange.
  rewrite nth_map_lt with (d' := 0%nat) by (rewrite length_seq; exact Hq).
  rewrite seq_nth by exact Hq. reflexivity.
Qed.

Lemma length_repeat_each {A} (l : list A) n :
  length (Np.repeat_each l n) = (length l * n)%nat.
Proof.
  unfold Np.repeat_each. induction l as [|x l IH]; simpl; [reflexivity|].
  rewrite length_app, repeat_length, IH. reflexivity.
Qed.

Lemma nth_repeat_each {A} (l : list A) n d : forall q r,
  (q < length l)%nat -> (r < n)%nat ->
  nth (q * n + r) (Np.repeat_each l n) d = nth q l d.
Proof.
  unfold Np.repeat_each. induction l as [|x l IH]; intros q r Hq Hr; simpl in *; [lia|].
  destruct q as [|q].
  - simpl. rewrite app_nth1 by (rewrite repeat_length; exact Hr).
    apply nth_repeat_lt. exact Hr.
  - rewrite app_nth2 by (rewrite repeat_length; simpl; lia).
    rewrite repeat_length.
    replace (S q * n + r - n)%nat with (q * n + r)%nat by (simpl; lia).
    apply IH; lia.
Qed.

Lemma length_tile {A} (a : list A) k :
  length (Np.tile a k) = (k * length a)%nat.
Proof.
  unfold Np.tile. induction k as [|k IH]; simpl; [reflexivity|].
  rewrite length_app, IH. reflexivity.
Qed.

Lemma nth_tile {A} (a : list A) d : forall k q r,
  (q < k)%nat -> (r < length a)%nat ->
  nth (q * length a + r) (Np.tile a k) d = nth r a d.
Proof.
  unfold Np.tile. induction k as [|k IH]; intros q r Hq Hr; simpl; [lia|].
  destruct q as [|q].
  - simpl. apply app_nth1. exact Hr.
  - rewrite app_nth2 by (simpl; lia).
    replace (S q * length a + r - length a)%nat with (q * length a + r)%nat
      by (simpl; lia).
    apply IH; lia.
Qed.

Lemma flat_mod npl ft t c :
  flat npl ft t c = ((t - ft) * Z.of_nat npl + c) mod 2 ^ 64.
Proof.
  unfold flat, Np.wrap64.
  rewrite Z.add_mod_idemp_l by lia.
  rewrite <- (Z.add_mod_idemp_l ((t - ft) mod 2 ^ 64 * Z.of_nat npl)) by lia.
  rewrite Z.mul_mod_idemp_l by lia.
  rewrite Z.add_mod_idemp_l by lia. reflexivity.
Qed.

Section TimelineFacts.

Variable npl : nat.
Variable ft nt : Z.
Hypothesis npl_pos : (0 < npl)%nat.

Lemma length_all_trains : length (all_trains npl ft nt) = (frames npl nt).
Proof.
  unfold all_trains. rewrite length_repeat_each, length_arange. reflexivity.
Qed.

Lemma length_all_cells : length (all_cells npl nt) = (frames npl nt).
Proof.
  unfold all_cells. rewrite length_tile, length_arange. reflexivity.
Qed.

Lemma length_all_flatid : length (all_flatid npl ft nt) = (frames npl nt).
Proof.
  unfold all_flatid. rewrite length_map, length_combine.
  rewrite length_all_trains, length_all_cells. lia.
Qed.

Lemma frame_split f :
  (f < (frames npl nt))%nat ->
  (f = f / npl * npl + f mod npl /\ f / npl < Z.to_nat nt /\ f mod npl < npl)%nat.
Proof.
  intros Hf. unfold frames in Hf.
  pose proof (Nat.div_mod_eq f npl) as E.
  pose proof (Nat.mod_upper_bound f npl ltac:(lia)) as B.
  split; [lia|]. split; [|exact B].
  apply Nat.Div0.div_lt_upper_bound. lia.
Qed.

Lemma nth_all_trains f :
  (f < (frames npl nt))%nat ->
  nth f (all_trains npl ft nt) 0 = ft + Z.of_nat (f / npl).
Proof.
  intros Hf. destruct (frame_split f Hf) as (E & Hq & Hr).
  unfold all_trains. rewrite E at 1.
  rewrite nth_repeat_each by (rewrite ?length_arange; assumption).
  apply nth_arange. exact Hq.
Qed.

Lemma nth_all_cells f :
  (f < (frames npl nt))%nat ->
  nth f (all_cells npl nt) 0 = Z.of_nat (f mod npl).
Proof.
  intros Hf. destruct (frame_split f Hf) as (E & Hq & Hr).
  unfold all_cells. rewrite E at 1.
  pose proof (nth_tile (Np.arange 0 npl) 0 (Z.to_nat nt) (f / npl) (f mod npl)) as T.
  rewrite length_arange in T. rewrite T by assumption.
  rewrite nth_arange by exact Hr. lia.
Qed.

Lemma nth_all_flatid_flat f :
  (f < (frames npl nt))%nat ->
  nth f (all_flatid npl ft nt) 0 =
  flat npl ft (nth f (all_trains npl ft nt) 0) (nth f (all_cells npl nt) 0).
Proof.
  intros Hf. unfold all_flatid.
  rewrite nth_map_lt with (d' := (0, 0))
    by (rewrite length_combine, length_all_trains, length_all_cells; lia).
  rewrite combine_nth by (rewrite length_all_trains, length_all_cells; reflexivity).
  reflexivity.
Qed.

(** The frame count fits the [u8] arithmetic of line 65. *)
Hypothesis frames_u8 : Z.of_nat (frames npl nt) <= 2 ^ 64.

Lemma nth_all_flatid f :
  (f < (frames npl nt))%nat -> nth f (all_flatid npl ft nt) 0 = Z.of_nat f.
Proof.
  intros Hf. rewrite nth_all_flatid_flat, nth_all_trains, nth_all_cells by exact Hf.
  destruct (frame_split f Hf) as (E & Hq & Hr).
  rewrite flat_mod.
  replace ((ft + Z.of_nat (f / npl) - ft) * Z.of_nat npl + Z.of_nat (f mod npl))
    with (Z.of_nat f) by lia.
  apply Z.mod_small. lia.
Qed.

Lemma all_flatid_seq :
  all_flatid npl ft nt = map Z.of_nat (seq 0 (frames npl nt)).
Proof.
  apply nth_ext with (d := 0) (d' := 0).
  - rewrite length_all_flatid, length_map, length_seq. reflexivity.
  - intros f Hf. rewrite length_all_flatid in Hf.
    rewrite nth_all_flatid by exact Hf.
    rewrite nth_map_lt with (d' := 0%nat) by (rewrite length_seq; exact Hf).
    rewrite seq_nth by exact Hf. reflexivity.
Qed.

(** A (train, cell) pair of the timeline and its flat index. *)
Lemma flat_in_timeline t c :
  ft <= t < ft + nt -> 0 <= c < Z.of_nat npl ->
  flat npl ft t c = (t - ft) * Z.of_nat npl + c /\
  (Z.to_nat (flat npl ft t c) < (frames npl nt))%nat /\
  nth (Z.to_nat (flat npl ft t c)) (all_trains npl ft nt) 0 = t /\
  nth (Z.to_nat (flat npl ft t c)) (all_cells npl nt) 0 = c.
Proof.
  intros Ht Hc.
  assert (Hb : 0 <= (t - ft) * Z.of_nat npl + c < Z.of_nat (frames npl nt)).
  { unfold frames. rewrite Nat2Z.inj_mul, Z2Nat.id by lia. nia. }
  assert (E : flat npl ft t c = (t - ft) * Z.of_nat npl + c).
  { rewrite flat_mod. apply Z.mod_small. lia. }
  rewrite E. split; [reflexivity|].
  assert (Hf : (Z.to_nat ((t - ft) * Z.of_nat npl + c) < (frames npl nt))%nat) by lia.
  split; [exact Hf|].
  assert (Hdiv : ((t - ft) * Z.of_nat npl + c) / Z.of_nat npl = t - ft).
  { rewrite Z.div_add_l by lia. rewrite Z.div_small by lia. lia. }
  assert (Hmod : ((t - ft) * Z.of_nat npl + c) mod Z.of_nat npl = c).
  { rewrite Z.add_comm, Z.mod_add by lia. apply Z.mod_small. lia. }
  split.
  - rewrite nth_all_trains by exact Hf.
    rewrite Nat2Z.inj_div, Z2Nat.id by lia. rewrite Hdiv. lia.
  - rewrite nth_all_cells by exact Hf.
    rewrite Nat2Z.inj_mod, Z2Nat.id by lia. exact Hmod.
Qed.

End TimelineFacts.

(** C8.  Take a timeline that ends at or below 2^53.  The float64
    steps of [np.arange] (line 63) are then exact: the train ids of the
    timeline are those the float64 evaluation gives.  The position of
    a row is [(trainId - firstTrainId) * pulsesPerTrain + cellId] as a
    [u8] value; for a row whose train and cell belong to the timeline
    it is that integer, lies below [frameCount], and the timeline
    arrays hold the row's train and cell there.  Conversely index [f]
    of the timeline holds train [firstTrainId + f / pulsesPerTrain],
    cell [f mod pulsesPerTrain] and flat id [f], which is the position
    computed from that train and cell. *)
Theorem C8_positions_agree_with_timeline npl ft nt :
  (0 < npl)%nat ->
  Z.of_nat (frames npl nt) <= 2 ^ 64 ->
  timeline_exact ft nt ->
  (forall rows j,
      (j < length rows)%nat ->
      let r := nth j rows {| trainId := 0; cellId := 0; pulseId := 0 |} in
      let p := nth j (flatid npl ft rows) 0 in
      p = ((trainId r - ft) * Z.of_nat npl + cellId r) mod 2 ^ 64 /\
      (ft <= trainId r < ft + nt -> 0 <= cellId r < Z.of_nat npl ->
       p = (trainId r - ft) * Z.of_nat npl + cellId r /\
       (Z.to_nat p < frames npl nt)%nat /\
       nth (Z.to_nat p) (all_trains npl ft nt) 0 = trainId r /\
       nth (Z.to_nat p) (all_cells npl nt) 0 = cellId r)) /\
  (forall f,
      (f < frames npl nt)%nat ->
      nth f (all_trains npl ft nt) 0 = ft + Z.of_nat (f / npl) /\
      nth f (all_cells npl nt) 0 = Z.of_nat (f mod npl) /\
      nth f (all_flatid npl ft nt) 0 = Z.of_nat f /\
      flat npl ft (nth f (all_trains npl ft nt) 0) (nth f (all_cells npl nt) 0)
        = Z.of_nat f) /\
  all_trains npl ft nt = Np.repeat_each (Float64.arange ft nt) npl.
Proof.
  intros Hnpl Hu8 Hex. split; [|split].
  - intros rows j Hj r p.
    assert (Ep : p = flat npl ft (trainId r) (cellId r)).
    { unfold p, r, flatid.
      rewrite nth_map_lt with (d' := {| trainId := 0; cellId := 0; pulseId := 0 |})
        by exact Hj. reflexivity. }
    rewrite Ep. split; [apply flat_mod|].
    intros Ht Hc. apply flat_in_timeline; assumption.
  - intros f Hf.
    split; [apply nth_all_trains; assumption|].
    split; [apply nth_all_cells; assumption|].
    split; [apply nth_all_flatid; assumption|].
    rewrite <- nth_all_flatid_flat by assumption.
    apply nth_all_flatid; assumption.
  - unfold all_trains. rewrite (Float64Facts.arange_exact ft nt Hex). reflexivity.
Qed.

Lemma C8_positions_agree_with_timeline_witness :
  timeline_exact 100 4 /\
  nth 0 (flatid 128 100 [ {| trainId := 101; cellId := 7; pulseId := 0 |} ]) 0 = 135 /\
  nth 135 (all_trains 128 100 4) 0 = 100 + Z.of_nat (135 / 128).
Proof.
  assert (H1 : (0 < 128)%nat) by lia.
  assert (H2 : Z.of_nat (frames 128 4) <= 2 ^ 64) by (vm_compute; discriminate).
  assert (H3 : timeline_exact 100 4)
    by (split; [lia | split; [lia | vm_compute; discriminate]]).
  pose proof (C8_positions_agree_with_timeline 128 100 4 H1 H2 H3) as [Hrow [Hidx _]].
  split; [exact H3|].
  split.
  - assert (Hj : (0 < length [ {| trainId := 101; cellId := 7; pulseId := 0 |} ])%nat)
      by (simpl; lia).
    destruct (Hrow _ 0%nat Hj) as [_ Hin]. simpl in Hin.
    destruct Hin as [E _]; [lia | lia |]. exact E.
  - assert (Hf : (135 < frames 128 4)%nat) by (vm_compute; lia).
    destruct (Hidx 135%nat Hf) as [E _]. exact E.
Defined.



(** ** TimelineBuilder *)

Module TimelineFacts.
Import Timeline TimelineRule.

Lemma file_step_nonempty ln s f :
  INDEX_trainId f <> [] ->
  file_step ln s f =
  Some (if oversized f then
          {| ftrain := ftrain s;
             tmin := if lo f >? 0 then Z.min (tmin s) (lo f) else tmin s;
             tmax := if String.eqb (fname f) ln
                     then Z.max (tmax s) (last (INDEX_trainId f) 0) else tmax s |}
        else
          {| ftrain := Z.min (ftrain s) (Z.min (tmin s) (lo f));
             tmin := Z.min (tmin s) (lo f);
             tmax := Z.max (tmax s) (hi f) |}).
Proof.
  intros Hne. unfold file_step, oversized, lo, hi.
  destruct (INDEX_trainId f) as [|x t]; [congruence|]. simpl.
  destruct (_ >? _); reflexivity.
Qed.

Lemma through_nil_mod_start fl :
  has_within fl = false -> through_last_within fl = [].
Proof.
  destruct fl as [|f rest]; simpl; [reflexivity|].
  intros H. apply orb_false_iff in H. destruct H as [H1 H2].
  rewrite H1, H2. reflexivity.
Qed.

Lemma mod_tmin_cons f rest :
  mod_tmin (f :: rest) =
  if negb (oversized f) || (lo f >? 0)
  then Z.min (lo f) (mod_tmin rest) else mod_tmin rest.
Proof. unfold mod_tmin. simpl. destruct (_ || _); reflexivity. Qed.

Lemma mod_tmax_with_cons ln f rest :
  mod_tmax_with ln (f :: rest) =
  if negb (oversized f) || String.eqb (fname f) ln
  then Z.max (if oversized f then last (INDEX_trainId f) 0 else hi f)
             (mod_tmax_with ln rest)
  else mod_tmax_with ln rest.
Proof. unfold mod_tmax_with. simpl. destruct (_ || _); reflexivity. Qed.

Lemma mod_tmin_le fl : mod_tmin fl <= maxsize.
Proof.
  unfold mod_tmin, list_min.
  induction (map lo _) as [|x l IH]; simpl; lia.
Qed.

(** The loop over the files of one module, from any loop state. *)
Lemma files_loop_closed ln : forall fl s,
  (forall f, In f fl -> INDEX_trainId f <> []) ->
  tmin s <= maxsize -> 0 <= tmax s ->
  files_loop ln s fl =
  Some {| ftrain := if has_within fl
                    then Z.min (ftrain s) (Z.min (tmin s) (mod_start fl))
                    else ftrain s;
          tmin := Z.min (tmin s) (mod_tmin fl);
          tmax := Z.max (tmax s) (mod_tmax_with ln fl) |}.
Proof.
  induction fl as [|f rest IH]; intros s Hne Hle Hge.
  - simpl. unfold mod_tmin, mod_tmax_with. simpl. destruct s as [a b c].
    simpl in *. f_equal. f_equal; lia.
  - simpl files_loop. rewrite file_step_nonempty by (apply Hne; left; reflexivity).
    assert (Hne' : forall g, In g rest -> INDEX_trainId g <> [])
      by (intros g Hg; apply Hne; right; exact Hg).
    pose proof (mod_tmin_le rest) as Hr.
    pose proof (mod_tmin_le (through_last_within rest)) as Hr'.
    unfold mod_start. simpl has_within. simpl through_last_within.
    rewrite mod_tmin_cons, mod_tmax_with_cons.
    destruct (oversized f) eqn:Eo; simpl negb; simpl orb.
    + rewrite IH
        by (try assumption; simpl;
            destruct (lo f >? 0); destruct (String.eqb (fname f) ln); lia).
      simpl.
      unfold mod_start.
      destruct (has_within rest) eqn:Eh.
      * rewrite mod_tmin_cons, Eo. simpl.
        destruct (lo f >? 0); destruct (String.eqb (fname f) ln);
          f_equal; f_equal; lia.
      * destruct (lo f >? 0); destruct (String.eqb (fname f) ln);
          f_equal; f_equal; lia.
    + rewrite IH by (try assumption; simpl; lia). simpl.
      unfold mod_start. rewrite mod_tmin_cons, Eo. simpl.
      destruct (has_within rest) eqn:Eh.
      * f_equal. f_equal; lia.
      * rewrite (through_nil_mod_start rest Eh).
        change (mod_tmin []) with maxsize.
        f_equal. f_equal; lia.
Qed.

Lemma mod_start_le fl : mod_start fl <= maxsize.
Proof. apply mod_tmin_le. Qed.

Lemma mod_start_no_within fl : has_within fl = false -> mod_start fl = maxsize.
Proof.
  intros H. unfold mod_start. rewrite through_nil_mod_start by exact H. reflexivity.
Qed.

Lemma module_step_closed n ft fl :
  (forall f, In f fl -> INDEX_trainId f <> []) ->
  ft <= maxsize ->
  module_step (n, ft) fl =
  Some (Z.max n (mod_span fl), Z.min ft (mod_start fl)).
Proof.
  intros Hne Hft. unfold module_step.
  rewrite files_loop_closed by (simpl; auto; lia). simpl.
  pose proof (mod_tmin_le fl). pose proof (mod_start_le fl).
  unfold mod_tmax.
  assert (E0 : forall l, Z.max 0 (mod_tmax_with (lastname_of fl) l)
                         = mod_tmax_with (lastname_of fl) l).
  { intros l. unfold mod_tmax_with, list_max.
    induction (map _ _) as [|x xs IHx]; simpl; lia. }
  rewrite E0. replace (Z.min maxsize (mod_tmin fl)) with (mod_tmin fl) by lia.
  unfold mod_span, mod_tmax.
  destruct (has_within fl) eqn:Eh.
  - f_equal. f_equal; lia.
  - rewrite (mod_start_no_within fl Eh). f_equal. f_equal; lia.
Qed.

Lemma list_max_base a b l :
  list_max (Z.max a b) l = Z.max b (list_max a l).
Proof. unfold list_max. induction l as [|x l IH]; simpl; lia. Qed.

Lemma list_min_base a b l :
  list_min (Z.min a b) l = Z.min b (list_min a l).
Proof. unfold list_min. induction l as [|x l IH]; simpl; lia. Qed.

Lemma modules_loop_closed : forall ms n ft,
  (forall fl f, In fl ms -> In f fl -> INDEX_trainId f <> []) ->
  ft <= maxsize ->
  modules_loop (n, ft) ms =
  Some (list_max n (map mod_span ms), list_min ft (map mod_start ms)).
Proof.
  induction ms as [|fl rest IH]; intros n ft Hne Hft; [reflexivity|].
  cbn [modules_loop].
  rewrite module_step_closed;
    [| intros f Hf; apply (Hne fl); [left; reflexivity | exact Hf] | exact Hft].
  rewrite IH;
    [| intros fl' f Hfl Hf; apply (Hne fl'); [right|]; assumption | lia].
  simpl map. rewrite list_max_base, list_min_base. reflexivity.
Qed.

End TimelineFacts.

(** The least train id of a non-empty index array is one of its
    entries. *)
Lemma lo_in_index f :
  INDEX_trainId f <> [] -> In (TimelineRule.lo f) (INDEX_trainId f).
Proof.
  unfold TimelineRule.lo, Np.amin.
  destruct (INDEX_trainId f) as [|x t]; [congruence|]. intros _.
  revert x. induction t as [|y t IH]; intros x; simpl; [left; reflexivity|].
  destruct (IH (Z.min x y)) as [E | Hin].
  - rewrite <- E.
    destruct (Z.min_spec x y) as [[_ Em] | [_ Em]]; rewrite Em;
      [left | right; left]; reflexivity.
  - right. right. exact Hin.
Qed.

Lemma hi_in_index f :
  INDEX_trainId f <> [] -> In (TimelineRule.hi f) (INDEX_trainId f).
Proof.
  unfold TimelineRule.hi, Np.amax.
  destruct (INDEX_trainId f) as [|x t]; [congruence|]. intros _.
  revert x. induction t as [|y t IH]; intros x; simpl; [left; reflexivity|].
  destruct (IH (Z.max x y)) as [E | Hin].
  - rewrite <- E.
    destruct (Z.max_spec x y) as [[_ Em] | [_ Em]]; rewrite Em;
      [right; left | left]; reflexivity.
  - right. right. exact Hin.
Qed.

Lemma last_in_index f :
  INDEX_trainId f <> [] -> In (last (INDEX_trainId f) 0) (INDEX_trainId f).
Proof.
  intros H. destruct (exists_last H) as (l & a & E). rewrite E, last_last.
  apply in_or_app. right. left. reflexivity.
Qed.

Lemma list_min_cases d l :
  TimelineRule.list_min d l = d \/ In (TimelineRule.list_min d l) l.
Proof.
  unfold TimelineRule.list_min. induction l as [|a l IH]; simpl; [left; reflexivity|].
  destruct (Z.min_spec a (fold_right Z.min d l)) as [[_ E] | [_ E]]; rewrite E.
  - right. left. reflexivity.
  - destruct IH as [IH | IH]; [left; exact IH | right; right; exact IH].
Qed.

Lemma list_max_cases d l :
  TimelineRule.list_max d l = d \/ In (TimelineRule.list_max d l) l.
Proof.
  unfold TimelineRule.list_max. induction l as [|a l IH]; simpl; [left; reflexivity|].
  destruct (Z.max_spec a (fold_right Z.max d l)) as [[_ E] | [_ E]]; rewrite E.
  - destruct IH as [IH | IH]; [left; exact IH | right; right; exact IH].
  - right. left. reflexivity.
Qed.

(** The minimum of a module is [sys.maxsize] or a train id of one of
    its files; its maximum is [0] or a train id of one of its files. *)
Lemma mod_tmin_cases fl :
  (forall f, In f fl -> INDEX_trainId f <> []) ->
  TimelineRule.mod_tmin fl = maxsize \/
  exists f, In f fl /\ In (TimelineRule.mod_tmin fl) (INDEX_trainId f).
Proof.
  intros Hne. unfold TimelineRule.mod_tmin.
  destruct (list_min_cases maxsize
              (map TimelineRule.lo
                 (filter (fun f => negb (TimelineRule.oversized f) ||
                                   (TimelineRule.lo f >? 0)) fl))) as [E | Hin];
    [left; exact E | right].
  apply in_map_iff in Hin. destruct Hin as (f & E & Hf).
  apply filter_In in Hf. destruct Hf as [Hf _].
  exists f. split; [exact Hf|]. rewrite <- E. apply lo_in_index, Hne, Hf.
Qed.

Lemma mod_tmax_cases fl :
  (forall f, In f fl -> INDEX_trainId f <> []) ->
  TimelineRule.mod_tmax fl = 0 \/
  exists f, In f fl /\ In (TimelineRule.mod_tmax fl) (INDEX_trainId f).
Proof.
  intros Hne. unfold TimelineRule.mod_tmax, TimelineRule.mod_tmax_with.
  generalize (Timeline.lastname_of fl). intros ln.
  match goal with |- TimelineRule.list_max 0 ?l = 0 \/ _ =>
    destruct (list_max_cases 0 l) as [E | Hin] end;
    [left; exact E | right].
  apply in_map_iff in Hin. destruct Hin as (f & E & Hf).
  apply filter_In in Hf. destruct Hf as [Hf _].
  exists f. split; [exact Hf|]. rewrite <- E.
  destruct (TimelineRule.oversized f);
    [apply last_in_index | apply hi_in_index]; apply Hne, Hf.
Qed.

(** C4 (counterexample).  The only file of the second module spans 300
    trains, more than 260, and its minimum 100 is positive.  The run
    nevertheless starts at 200, above that minimum, and its train count
    is 4 more than the span 300 of the oversized file, from its minimum
    to its last sample, not 4 more than the span 10 of the file within
    the limit.  Alone in the run the oversized file gives the same
    count and leaves the start at [sys.maxsize]. *)
Lemma C4_oversized_span_is_counted :
  TimelineRule.oversized wide_file = true /\
  0 < TimelineRule.lo wide_file /\
  (exists ft nt,
      Timeline.build [[steady_file]; [wide_file]] = Some (ft, nt) /\
      ~ ft <= TimelineRule.lo wide_file /\
      nt = TimelineRule.hi wide_file - TimelineRule.lo wide_file + 4 /\
      nt <> TimelineRule.hi steady_file - TimelineRule.lo steady_file + 4) /\
  Timeline.build [[wide_file]] = Some (maxsize, 300 + 4).
Proof.
  split; [reflexivity|]. split; [reflexivity|]. split; [|reflexivity].
  exists 200, 304. split; [reflexivity|].
  split; [vm_compute; intros H; apply H; reflexivity|].
  split; [reflexivity | vm_compute; discriminate].
Qed.

(** C4 (as amended).  For index arrays that are not empty and hold
    train ids below 2^53 the scan returns, and its result is the closed
    rule; the minimum of every file then compares below [sys.maxsize]
    in the float64 comparison of lines 50, 54 and 56, which lowers
    [tmin] and [ftrain] as the minimum of integers does, and the
    float64 difference of line 59 has the effect of the exact one on
    the maximum of line 60.  The run starts at the
    least module start, where a module's start is the minimum over its
    files up to the last one within the limit (minima of files within
    the limit, positive minima of oversized ones).  The train count is
    4 more than the largest module span, and at least 3; the span is
    [tmax - tmin] as line 59 computes it, [tmin] taken over all files
    of the module in the same way and [tmax] over the maxima of files
    within the limit and the last sample of an oversized file that is
    the module's last.  For a module made of one oversized file this
    is: no start, its last sample as maximum, its minimum if positive
    as minimum. *)
Theorem C4_timeline_rule ms :
  (forall fl f, In fl ms -> In f fl -> INDEX_trainId f <> []) ->
  index_ids_exact ms ->
  Timeline.build ms = Some (TimelineRule.firstTrainId ms, TimelineRule.trainCount ms) /\
  (forall f, In [f] ms -> TimelineRule.oversized f = true ->
     TimelineRule.mod_start [f] = maxsize /\
     TimelineRule.mod_tmax [f] = Z.max (last (INDEX_trainId f) 0) 0 /\
     TimelineRule.mod_tmin [f] =
       if TimelineRule.lo f >? 0 then Z.min (TimelineRule.lo f) maxsize else maxsize) /\
  (forall fl f, In fl ms -> In f fl ->
     Float64.ltb (TimelineRule.lo f) maxsize = true /\
     Float64.min_maxsize (TimelineRule.lo f) = Z.min maxsize (TimelineRule.lo f)) /\
  (forall fl n, In fl ms -> -1 <= n ->
     Z.max n (Float64.span (TimelineRule.mod_tmin fl) (TimelineRule.mod_tmax fl)) =
     Z.max n (TimelineRule.mod_span fl)).
Proof.
  intros Hne Hex. split; [|split; [|split]].
  - unfold Timeline.build.
    rewrite TimelineFacts.modules_loop_closed by (try assumption; lia).
    reflexivity.
  - intros f _ Ho. split; [|split].
    + apply TimelineFacts.mod_start_no_within. simpl. rewrite Ho. reflexivity.
    + unfold TimelineRule.mod_tmax, Timeline.lastname_of. cbn [last].
      rewrite TimelineFacts.mod_tmax_with_cons, Ho, String.eqb_refl. reflexivity.
    + rewrite TimelineFacts.mod_tmin_cons, Ho. reflexivity.
  - intros fl f Hfl Hf.
    assert (Hlo : 0 <= TimelineRule.lo f < 2 ^ 53).
    { apply (Hex fl f); [exact Hfl | exact Hf |].
      apply lo_in_index. apply (Hne fl f Hfl Hf). }
    assert (Hm : 2 ^ 53 < maxsize) by reflexivity.
    split.
    + rewrite Float64Facts.ltb_exact by (try (left; lia); try lia).
      apply Z.ltb_lt. lia.
    + apply Float64Facts.min_maxsize_exact. exact Hlo.
  - intros fl n Hfl Hn. unfold TimelineRule.mod_span.
    apply Float64Facts.span_exact; [exact Hn | |].
    + destruct (mod_tmin_cases fl (fun f => Hne fl f Hfl)) as [E | (f & Hf & Hin)];
        [left; exact E | right]. apply (Hex fl f _ Hfl Hf Hin).
    + destruct (mod_tmax_cases fl (fun f => Hne fl f Hfl)) as [E | (f & Hf & Hin)].
      * rewrite E. split; [lia | reflexivity].
      * apply (Hex fl f _ Hfl Hf Hin).
Qed.

Lemma C4_timeline_rule_witness :
  index_ids_exact [[steady_file]; [wide_file]] /\
  Timeline.build [[steady_file]; [wide_file]] =
  Some (TimelineRule.firstTrainId [[steady_file]; [wide_file]],
        TimelineRule.trainCount [[steady_file]; [wide_file]]).
Proof.
  assert (Hex : index_ids_exact [[steady_file]; [wide_file]])
    by (apply index_ids_exactb_spec; reflexivity).
  split; [exact Hex|].
  apply (C4_timeline_rule [[steady_file]; [wide_file]]); [|exact Hex].
  intros fl f [<- | [<- | []]] [<- | []]; discriminate.
Defined.



(** ** Masks, selections and sorted index lists *)

Lemma length_where_from mask : forall i,
  length (Np.where_from i mask) = Np.sum mask.
Proof.
  induction mask as [|b m IH]; intros i; [reflexivity|].
  rewrite sum_cons. destruct b; simpl; rewrite IH; reflexivity.
Qed.

Lemma length_where mask : length (Np.where_ mask) = Np.sum mask.
Proof. apply length_where_from. Qed.

Lemma where_from_ge mask : forall i j, In j (Np.where_from i mask) -> (i <= j)%nat.
Proof.
  induction mask as [|b m IH]; intros i j H; [destruct H|].
  destruct b; simpl in H.
  - destruct H as [<- | H]; [lia|]. apply IH in H. lia.
  - apply IH in H. lia.
Qed.

Lemma where_from_sorted mask : forall i, StronglySorted lt (Np.where_from i mask).
Proof.
  induction mask as [|b m IH]; intros i; [constructor|].
  destruct b; simpl; [|apply IH].
  constructor; [apply IH|].
  apply Forall_forall. intros j Hj. apply where_from_ge in Hj. lia.
Qed.

Lemma sorted_map_of_nat l :
  StronglySorted lt l -> StronglySorted Z.lt (map Z.of_nat l).
Proof.
  induction 1 as [|x l Hs IH Hx]; simpl; constructor; [exact IH|].
  rewrite Forall_forall in *. intros z Hz.
  apply in_map_iff in Hz. destruct Hz as (y & <- & Hy).
  apply Hx in Hy. lia.
Qed.

Lemma ascending_sorted l : ascending l = true <-> StronglySorted Z.lt l.
Proof.
  induction l as [|x l IH]; [split; [constructor | reflexivity]|].
  destruct l as [|y t].
  - split; [intros _; repeat constructor | reflexivity].
  - change (ascending (x :: y :: t)) with ((x <? y) && ascending (y :: t)).
    rewrite andb_true_iff, Z.ltb_lt, IH. split.
    + intros [Hxy Hs]. constructor; [exact Hs|].
      inversion Hs as [|? ? Hs' Hall]; subst.
      constructor; [exact Hxy|].
      rewrite Forall_forall in *. intros z Hz. apply Hall in Hz. lia.
    + intros Hs. inversion Hs as [|? ? Hs' Hall]; subst. split; [|exact Hs'].
      inversion Hall; assumption.
Qed.

Lemma sorted_NoDup l : StronglySorted Z.lt l -> NoDup l.
Proof.
  induction 1 as [|x l Hs IH Hx]; constructor; [|exact IH].
  intros Hin. rewrite Forall_forall in Hx. apply Hx in Hin. lia.
Qed.

(** Two strictly ascending lists with the same elements are equal. *)
Lemma sorted_same_elements l1 : forall l2,
  StronglySorted Z.lt l1 -> StronglySorted Z.lt l2 ->
  (forall x, In x l1 <-> In x l2) -> l1 = l2.
Proof.
  induction l1 as [|a l1 IH]; intros [|b l2] H1 H2 Hiff.
  - reflexivity.
  - exfalso. apply (proj2 (Hiff b)). left. reflexivity.
  - exfalso. apply (proj1 (Hiff a)). left. reflexivity.
  - inversion H1 as [|? ? H1' Ha]; subst. inversion H2 as [|? ? H2' Hb]; subst.
    rewrite Forall_forall in Ha, Hb.
    assert (a = b).
    { destruct (proj1 (Hiff a) (or_introl eq_refl)) as [E|Hin]; [auto|].
      destruct (proj2 (Hiff b) (or_introl eq_refl)) as [E|Hin']; [auto|].
      apply Hb in Hin. apply Ha in Hin'. lia. }
    subst b. f_equal. apply IH; try assumption.
    intros x. split; intros Hx.
    + destruct (proj1 (Hiff x) (or_intror Hx)) as [E|Hin]; [|exact Hin].
      subst x. apply Ha in Hx. lia.
    + destruct (proj2 (Hiff x) (or_intror Hx)) as [E|Hin]; [|exact Hin].
      subst x. apply Hb in Hx. lia.
Qed.

Lemma length_select {A} (mask : list bool) : forall (a : list A),
  length mask = length a -> length (Np.select mask a) = Np.sum mask.
Proof.
  induction mask as [|b m IH]; intros [|x a] Hl; simpl in *; try reflexivity; try lia.
  rewrite sum_cons. destruct b; simpl; rewrite IH by lia; reflexivity.
Qed.

(** [a[mask]] lists the entries of [a] at the indices [np.where(mask)]. *)
Lemma select_where_from {A} (d : A) (mask : list bool) : forall (a pre : list A),
  length mask = length a ->
  Np.select mask a =
  map (fun j => nth j (pre ++ a) d) (Np.where_from (length pre) mask).
Proof.
  induction mask as [|b m IH]; intros [|x a] pre Hl; simpl in *; try reflexivity; try lia.
  assert (E : forall j, nth j (pre ++ x :: a) d = nth j ((pre ++ [x]) ++ a) d)
    by (intros j; rewrite <- app_assoc; reflexivity).
  assert (L : S (length pre) = length (pre ++ [x]))
    by (rewrite length_app; simpl; lia).
  destruct b; simpl.
  - rewrite app_nth2, Nat.sub_diag by lia. simpl. f_equal.
    rewrite L. rewrite (IH a (pre ++ [x])) by lia.
    apply map_ext. intros j. symmetry. apply E.
  - rewrite L. rewrite (IH a (pre ++ [x])) by lia.
    apply map_ext. intros j. symmetry. apply E.
Qed.

Lemma select_where {A} (d : A) mask (a : list A) :
  length mask = length a ->
  Np.select mask a = map (fun j => nth j a d) (Np.where_ mask).
Proof. intros H. apply (select_where_from d mask a [] H). Qed.

Lemma where_lt mask j : In j (Np.where_ mask) -> (j < length mask)%nat.
Proof.
  intros H. apply in_where in H.
  destruct (Nat.lt_ge_cases j (length mask)) as [|Hge]; [assumption|].
  rewrite nth_overflow in H by exact Hge. discriminate.
Qed.

Lemma mem_In x l : Np.mem x l = true <-> In x l.
Proof.
  unfold Np.mem. rewrite existsb_exists. split.
  - intros (y & Hy & E). apply Z.eqb_eq in E. subst. exact Hy.
  - intros H. exists x. split; [exact H | apply Z.eqb_refl].
Qed.

Lemma in_where_in1d a b p :
  In p (Np.where_ (Np.in1d a b)) <-> (p < length a)%nat /\ In (nth p a 0) b.
Proof.
  rewrite in_where. unfold Np.in1d. split.
  - intros H.
    assert (Hp : (p < length a)%nat).
    { destruct (Nat.lt_ge_cases p (length a)) as [|Hge]; [assumption|].
      rewrite nth_overflow in H by (rewrite length_map; exact Hge). discriminate. }
    split; [exact Hp|].
    rewrite nth_map_lt with (d' := 0) in H by exact Hp. apply mem_In, H.
  - intros [Hp H]. rewrite nth_map_lt with (d' := 0) by exact Hp. apply mem_In, H.
Qed.




(** ** ChunkMapper *)

Section ChunkFacts.

Variable npl : nat.
Variable ft nt : Z.

Lemma length_chunk_sel sel st en : length (chunk_sel sel st en) = length sel.
Proof.
  unfold chunk_sel. rewrite length_map, length_combine, length_seq. lia.
Qed.

Lemma length_flatid rows : length (flatid npl ft rows) = length rows.
Proof. apply length_map. Qed.

Lemma chunk_step_cases m f sel chunk L :
  chunk_step npl ft nt m f sel chunk L =
  let csel := chunk_rows (length (image f)) sel chunk in
  let cind := chunk_ind npl ft nt (image f) csel in
  if chunk_mismatch npl ft nt f sel chunk then
    Returned {| mm_file := fname f; mm_chunk := chunk;
                mm_chunks := num_chunks (length (image f));
                mm_sel := Np.sum csel; mm_ind := length cind |} L
  else if (Np.sum csel =? 0)%nat then Next L
  else Next (assign m (fname f) cind csel L).
Proof. reflexivity. Qed.




Lemma chunks_loop_returned m f sel : forall chunks L msg L',
  chunks_loop npl ft nt m f sel chunks L = Returned msg L' ->
  mm_file msg = fname f /\ In (mm_chunk msg) chunks /\
  chunk_mismatch npl ft nt f sel (mm_chunk msg) = true /\
  mm_sel msg <> mm_ind msg.
Proof.
  induction chunks as [|c0 rest IH]; intros L msg L' H; [discriminate|].
  simpl in H. rewrite chunk_step_cases in H. cbv zeta in H.
  destruct (chunk_mismatch npl ft nt f sel c0) eqn:E.
  - injection H as <- _. simpl. repeat split; auto.
    unfold chunk_mismatch in E. cbv zeta in E.
    apply negb_true_iff, Nat.eqb_neq in E. exact E.
  - assert (H' : exists L1, chunks_loop npl ft nt m f sel rest L1 = Returned msg L').
    { destruct (Np.sum _ =? 0)%nat; eauto. }
    destruct H' as (L1 & H1). destruct (IH _ _ _ H1) as (A & B & C & D).
    repeat split; auto. right. exact B.
Qed.

Lemma chunks_loop_not_raised m f sel : forall chunks L L',
  chunks_loop npl ft nt m f sel chunks L <> Raised L'.
Proof.
  induction chunks as [|c0 rest IH]; intros L L'; [discriminate|].
  simpl. rewrite chunk_step_cases. cbv zeta.
  destruct (chunk_mismatch npl ft nt f sel c0); [discriminate|].
  destruct (Np.sum _ =? 0)%nat; apply IH.
Qed.


End ChunkFacts.

Section ChunkDestinations.

Variable npl : nat.
Variable ft nt : Z.
Hypothesis npl_pos : (0 < npl)%nat.
Hypothesis frames_u8 : Z.of_nat (frames npl nt) <= 2 ^ 64.

Variable rows : list row.
Variable csel : list bool.
Hypothesis csel_len : length csel = length rows.

(** The computed positions of the selected rows, in row order, and
    the destinations found for them. *)
Let pos : list Z := Np.select csel (flatid npl ft rows).
Let cind : list nat := chunk_ind npl ft nt rows csel.

Lemma in_chunk_ind p :
  In p cind <-> (p < frames npl nt)%nat /\ In (Z.of_nat p) pos.
Proof.
  unfold cind, chunk_ind. rewrite in_where_in1d.
  rewrite length_all_flatid by exact npl_pos.
  split; intros [Hp H]; (split; [exact Hp|]).
  - rewrite (nth_all_flatid npl ft nt npl_pos frames_u8 p Hp) in H. exact H.
  - rewrite (nth_all_flatid npl ft nt npl_pos frames_u8 p Hp). exact H.
Qed.

Lemma chunk_ind_sorted : StronglySorted Z.lt (map Z.of_nat cind).
Proof. apply sorted_map_of_nat. apply where_from_sorted. Qed.

Lemma chunk_ind_incl : incl (map Z.of_nat cind) pos.
Proof.
  intros x Hx. apply in_map_iff in Hx. destruct Hx as (p & <- & Hp).
  apply in_chunk_ind in Hp. apply Hp.
Qed.

Lemma length_pos : length pos = Np.sum csel.
Proof.
  unfold pos. apply length_select. rewrite length_flatid. exact csel_len.
Qed.

Lemma pos_rows :
  pos = map (fun j => nth j (flatid npl ft rows) 0) (Np.where_ csel).
Proof.
  unfold pos. apply select_where. rewrite length_flatid. exact csel_len.
Qed.

(** From here on the two counts of line 119 agree. *)
Hypothesis counts_agree : Np.sum csel = length cind.

Lemma pass_same_elements x : In x (map Z.of_nat cind) <-> In x pos.
Proof.
  split; [apply chunk_ind_incl|].
  apply (NoDup_length_incl (sorted_NoDup _ chunk_ind_sorted)).
  - rewrite length_map, length_pos, counts_agree. lia.
  - apply chunk_ind_incl.
Qed.

Lemma pass_NoDup : NoDup pos.
Proof.
  apply (NoDup_incl_NoDup (sorted_NoDup _ chunk_ind_sorted)).
  - rewrite length_map, length_pos, counts_agree. lia.
  - apply chunk_ind_incl.
Qed.

Lemma pass_in_timeline x : In x pos -> 0 <= x < Z.of_nat (frames npl nt).
Proof.
  intros Hx. apply pass_same_elements in Hx.
  apply in_map_iff in Hx. destruct Hx as (p & <- & Hp).
  apply in_chunk_ind in Hp. lia.
Qed.

(** Every selected row lands on its own position exactly when the
    positions ascend in row order. *)
Lemma pass_own_position :
  map Z.of_nat cind = pos <-> ascending pos = true.
Proof.
  split.
  - intros <-. apply ascending_sorted, chunk_ind_sorted.
  - intros Ha. apply ascending_sorted in Ha.
    apply sorted_same_elements; [apply chunk_ind_sorted | exact Ha |].
    apply pass_same_elements.
Qed.


End ChunkDestinations.

Lemma NoDup_map_eq {A B} (g : A -> B) (l : list A) a b :
  NoDup (map g l) -> In a l -> In b l -> g a = g b -> a = b.
Proof.
  induction l as [|x l IH]; intros Hnd Ha Hb E; [destruct Ha|].
  simpl in Hnd. inversion Hnd as [|? ? Hx Hnd']; subst.
  destruct Ha as [<- | Ha]; destruct Hb as [<- | Hb]; auto.
  - exfalso. apply Hx. rewrite E. apply in_map. exact Hb.
  - exfalso. apply Hx. rewrite <- E. apply in_map. exact Ha.
Qed.

(** Two rows of one chunk with the same position make the counts of
    line 119 differ. *)
Lemma same_chunk_duplicate_mismatch npl ft nt rows csel j1 j2 :
  (0 < npl)%nat -> Z.of_nat (frames npl nt) <= 2 ^ 64 ->
  length csel = length rows ->
  nth j1 csel false = true -> nth j2 csel false = true -> j1 <> j2 ->
  nth j1 (flatid npl ft rows) 0 = nth j2 (flatid npl ft rows) 0 ->
  Np.sum csel <> length (chunk_ind npl ft nt rows csel).
Proof.
  intros Hn Hu Hl H1 H2 Hne E Hc.
  pose proof (pass_NoDup npl ft nt Hn Hu rows csel Hl Hc) as Hnd.
  rewrite (pos_rows npl ft rows csel Hl) in Hnd.
  apply Hne.
  apply (NoDup_map_eq _ _ j1 j2 Hnd); [apply in_where | apply in_where |]; assumption.
Qed.



(** ** The loops over files and modules *)

Section LoopFacts.

Variable npl : nat.
Variable ft nt : Z.



Lemma process_file_returned m st f msg st' :
  process_file npl ft nt m st f = Returned msg st' ->
  mm_file msg = fname f /\
  (mm_chunk msg < num_chunks (length (image f)))%nat /\
  chunk_mismatch npl ft nt f (file_mask npl ft nt f) (mm_chunk msg) = true /\
  mm_sel msg <> mm_ind msg /\
  outdset_cid st' = outdset_cid st /\ outdset_pid st' = outdset_pid st.
Proof.
  unfold process_file. fold (file_mask npl ft nt f).
  destruct (Np.sum (file_mask npl ft nt f) =? 0)%nat; [discriminate|].
  destruct (chunks_loop npl ft nt m f (file_mask npl ft nt f) _ (layout_data st)) eqn:EL.
  - destruct (mask_write (outdset_cid st) _ _); [|discriminate].
    destruct (mask_write (outdset_pid st) _ _); discriminate.
  - intros H. injection H as <- <-.
    destruct (chunks_loop_returned _ _ _ _ _ _ _ _ _ _ EL) as (A & B & C & D).
    apply in_seq in B. simpl. repeat split; auto; lia.
  - discriminate.
Qed.





End LoopFacts.

(** How a run ends, read off [run]. *)
Lemma run_cases npl modules glob :
  match Timeline.build (map glob modules) with
  | None => run npl modules glob = (Crashed, None)
  | Some (ft, nt) =>
      match glob 0%nat with
      | [] => run npl modules glob = (Crashed, None)
      | _ :: _ =>
          match modules_loop npl ft nt glob modules (init_state npl nt) with
          | Next st => run npl modules glob = (Finished, Some (artifact npl ft nt st true))
          | Returned msg st =>
              run npl modules glob = (Aborted msg, Some (artifact npl ft nt st false))
          | Raised st => run npl modules glob = (Crashed, Some (artifact npl ft nt st false))
          end
      end
  end.
Proof.
  unfold run. destruct (Timeline.build _) as [[ft nt]|]; [|reflexivity].
  destruct (glob 0%nat); [reflexivity|].
  destruct (modules_loop _ _ _ _ _ _); reflexivity.
Qed.








(** C6 (the code at the failing input).  Rows 0 and 32 of the file
    both survive validation and both compute position 0.  They lie in
    chunks 0 and 1, each chunk finds as many destinations as it has
    rows, and the run finishes: the layout maps position 0 of module 0
    twice, and the later assignment, row 32, is the one read back. *)
Theorem C6_duplicate_across_chunks_not_reported :
  let sel := file_mask npulses 100 4 repeated_cell_file in
  let pos := flatid npulses 100 (image repeated_cell_file) in
  Timeline.build (map repeated_cell_glob (seq 0 NMODULES)) = Some (100, 4) /\
  nth 0 sel false = true /\ nth 32 sel false = true /\
  nth 0 pos 0 = 0 /\ nth 32 pos 0 = 0 /\
  fst (main repeated_cell_glob) = Finished /\
  match snd (main repeated_cell_glob) with
  | Some {| out_data := Some L |} =>
      In ((0%nat, 0%nat), {| src_file := "AGIPD00-S00000.h5"; src_row := 0 |}) L /\
      In ((0%nat, 0%nat), {| src_file := "AGIPD00-S00000.h5"; src_row := 32 |}) L /\
      read_data L 0 0 = FromRow {| src_file := "AGIPD00-S00000.h5"; src_row := 32 |}
  | _ => False
  end.
Proof.
  cbv zeta.
  do 6 (split; [vm_compute; reflexivity|]).
  vm_compute.
  split; [|split]; [ | | reflexivity];
    repeat (first [left; reflexivity | right]).
Qed.








(** ** Counting rows per train *)


Lemma count_app t a b : Np.count t (a ++ b) = (Np.count t a + Np.count t b)%nat.
Proof. unfold Np.count. rewrite filter_app, length_app. reflexivity. Qed.

Lemma count_cons t x a :
  Np.count t (x :: a) = ((if Z.eqb t x then 1 else 0) + Np.count t a)%nat.
Proof. unfold Np.count. simpl. destruct (t =? x); reflexivity. Qed.

Lemma count_in t a : In t a <-> (0 < Np.count t a)%nat.
Proof.
  split; [|apply count_pos_in].
  induction a as [|x a IH]; intros H; [destruct H|].
  rewrite count_cons. destruct H as [-> | H].
  - rewrite Z.eqb_refl. lia.
  - apply IH in H. lia.
Qed.

Lemma select_app {A} (m1 m2 : list bool) (a1 a2 : list A) :
  length m1 = length a1 ->
  Np.select (m1 ++ m2) (a1 ++ a2) = Np.select m1 a1 ++ Np.select m2 a2.
Proof.
  revert a1. induction m1 as [|b m1 IH]; intros [|x a1] Hl; simpl in *; try lia.
  - reflexivity.
  - destruct b; simpl; rewrite IH by lia; reflexivity.
Qed.

Lemma count_select_le t (mask : list bool) : forall a,
  (Np.count t (Np.select mask a) <= Np.count t a)%nat.
Proof.
  induction mask as [|b m IH]; intros [|x a]; simpl; try (unfold Np.count; simpl; lia).
  - destruct b; unfold Np.count; simpl; lia.
  - specialize (IH a). destruct b; rewrite ?count_cons; lia.
Qed.

(** When every selected row of train [t] has fewer than [n] earlier
    rows of that train, at most [n] rows of train [t] are selected. *)
Lemma count_select_capped t n : forall tid mask,
  length mask = length tid ->
  (forall j, (j < length tid)%nat -> nth j mask false = true -> nth j tid 0 = t ->
             (Np.count t (firstn j tid) < n)%nat) ->
  (Np.count t (Np.select mask tid) <= n)%nat.
Proof.
  induction tid as [|x tid IH] using rev_ind; intros mask Hl H.
  - destruct mask; simpl in *; [unfold Np.count; simpl; lia | lia].
  - destruct (exists_last (l := mask)) as (mask' & b & ->).
    { intros ->. rewrite length_app in Hl. simpl in Hl. lia. }
    rewrite !length_app in Hl. simpl in Hl.
    assert (Hl' : length mask' = length tid) by lia.
    rewrite select_app by exact Hl'. rewrite count_app.
    assert (IH' : (Np.count t (Np.select mask' tid) <= n)%nat).
    { apply IH; [exact Hl'|]. intros j Hj Hm Ht.
      specialize (H j). rewrite length_app in H. simpl in H.
      rewrite !app_nth1 in H by lia.
      rewrite firstn_app in H. replace (j - length tid)%nat with 0%nat in H by lia.
      simpl in H. rewrite app_nil_r in H. apply H; auto. lia. }
    assert (Hb : Np.count t (Np.select [b] [x]) =
                 if b && (t =? x) then 1%nat else 0%nat).
    { destruct b; simpl; [|reflexivity]. rewrite count_cons.
      destruct (t =? x); reflexivity. }
    rewrite Hb. destruct b; simpl; [|lia].
    destruct (t =? x) eqn:E; [|lia].
    apply Z.eqb_eq in E. subst x.
    specialize (H (length tid)). rewrite length_app in H. simpl in H.
    assert (Hc : (Np.count t tid < n)%nat).
    { rewrite firstn_app, firstn_all, Nat.sub_diag in H. simpl in H.
      rewrite app_nil_r in H. apply H; [lia | |].
      - rewrite <- Hl'. rewrite app_nth2 by lia. rewrite Nat.sub_diag. reflexivity.
      - rewrite app_nth2 by lia. rewrite Nat.sub_diag. reflexivity. }
    pose proof (count_select_le t mask' tid). lia.
Qed.

(** After validation no train keeps more than [npl] rows. *)
Lemma survivors_capped npl ft nt tid t :
  (Np.count t (Np.select (validate npl ft nt tid) tid) <= npl)%nat.
Proof.
  destruct (Nat.le_gt_cases (Np.count t tid) npl) as [Hle | Hgt].
  - pose proof (count_select_le t (validate npl ft nt tid) tid). lia.
  - apply count_select_capped; [apply length_validate|].
    intros j Hj Hs Ht.
    rewrite validate_nth in Hs by exact Hj. rewrite Ht in Hs.
    apply andb_true_iff in Hs. destruct Hs as [_ Hs].
    apply negb_true_iff, andb_false_iff in Hs.
    destruct Hs as [Hs | Hs]; [apply Nat.ltb_ge in Hs; lia | apply Nat.leb_gt in Hs; exact Hs].
Qed.

Lemma in_select (mask : list bool) (a : list Z) x :
  length mask = length a ->
  In x (Np.select mask a) <->
  exists j, (j < length a)%nat /\ nth j mask false = true /\ nth j a 0 = x.
Proof.
  intros Hl. rewrite (select_where 0 mask a Hl), in_map_iff. split.
  - intros (j & E & Hj). exists j.
    pose proof (where_lt _ _ Hj). apply in_where in Hj. split; [lia | auto].
  - intros (j & Hj & Hm & E). exists j. split; [exact E | apply in_where, Hm].
Qed.

Lemma survivors_in_range npl ft nt tid t :
  In t (Np.select (validate npl ft nt tid) tid) -> 0 < t < ltrain ft nt.
Proof.
  intros H. apply in_select in H; [|apply length_validate].
  destruct H as (j & Hj & Hm & <-).
  apply (validate_in_upper_range npl ft nt tid j Hj Hm).
Qed.







(** ** The per-frame id arrays *)

Lemma existsb_nat_In j l : existsb (Nat.eqb j) l = true <-> In j l.
Proof.
  rewrite existsb_exists. split.
  - intros (x & Hx & E). apply Nat.eqb_eq in E. subst. exact Hx.
  - intros H. exists j. split; [exact H | apply Nat.eqb_refl].
Qed.

(** Setting a zero mask at [np.where(mask)] gives [mask] back. *)
Lemma put_where mask :
  Np.put (Np.where_ mask) true (repeat false (length mask)) = mask.
Proof.
  apply nth_ext with (d := false) (d' := false).
  - rewrite length_put, repeat_length. reflexivity.
  - intros j Hj. rewrite length_put, repeat_length in Hj.
    rewrite nth_put by (rewrite repeat_length; exact Hj).
    destruct (existsb (Nat.eqb j) (Np.where_ mask)) eqn:E.
    + apply existsb_nat_In, in_where in E. symmetry. exact E.
    + rewrite nth_repeat_lt by exact Hj.
      destruct (nth j mask false) eqn:Em; [|reflexivity].
      apply in_where, existsb_nat_In in Em. congruence.
Qed.

Lemma length_in1d a b : length (Np.in1d a b) = length a.
Proof. apply length_map. Qed.

Lemma sel_indices_in1d npl ft nt tid_s :
  sel_indices npl ft nt tid_s = Np.in1d (all_trains npl ft nt) tid_s.
Proof.
  unfold sel_indices, meta_indices.
  rewrite <- (length_in1d (all_trains npl ft nt) tid_s). apply put_where.
Qed.







Section MetadataFacts.

Variable npl : nat.
Variable ft nt : Z.
Variable tid : list Z.

Let tid_s : list Z := Np.select (validate npl ft nt tid) tid.




End MetadataFacts.







(** ** What the run leaves behind *)

Lemma scatter_nth_false : forall dst mask vals p,
  nth p mask false = false -> nth p (scatter dst mask vals) 0 = nth p dst 0.
Proof.
  induction dst as [|d dst IH]; intros mask vals p Hp; [reflexivity|].
  destruct mask as [|b mask]; [reflexivity|].
  destruct b.
  - destruct p as [|p]; [discriminate|]. simpl in Hp.
    destruct vals as [|v vals]; simpl; apply IH; exact Hp.
  - destruct p as [|p]; [reflexivity|]. simpl in Hp. simpl. apply IH. exact Hp.
Qed.

(** A write through a mask leaves the entries outside the mask as they
    were. *)
Lemma mask_write_untouched dst mask vals c p :
  mask_write dst mask vals = Some c ->
  nth p mask false = false -> nth p c 0 = nth p dst 0.
Proof.
  unfold mask_write. intros H Hp.
  destruct (Np.sum mask =? 0)%nat; [injection H as <-; reflexivity|].
  destruct (Np.sum mask =? length vals)%nat; [|discriminate].
  injection H as <-. apply scatter_nth_false, Hp.
Qed.

Lemma layout_lookup_In L m p s :
  layout_lookup L m p = Some s -> In ((m, p), s) L.
Proof.
  induction L as [|[[m1 p1] s1] L IH]; [discriminate|].
  simpl. destruct ((m1 =? m)%nat && (p1 =? p)%nat) eqn:E.
  - intros H. injection H as ->. apply andb_true_iff in E. destruct E as [E1 E2].
    apply Nat.eqb_eq in E1, E2. subst. left. reflexivity.
  - intros H. right. apply IH, H.
Qed.

Lemma nth_chunk_sel sel st en j :
  nth j (chunk_sel sel st en) false = true -> nth j sel false = true.
Proof.
  intros H.
  assert (Hj : (j < length sel)%nat).
  { destruct (Nat.lt_ge_cases j (length sel)) as [|Hge]; [assumption|].
    rewrite nth_overflow in H by (rewrite length_chunk_sel; exact Hge). discriminate. }
  unfold chunk_sel in H.
  rewrite nth_map_lt with (d' := (0%nat, false)) in H
    by (rewrite length_combine, length_seq; lia).
  rewrite nth_combine_seq in H by exact Hj. simpl in H.
  apply andb_true_iff in H. apply H.
Qed.

Lemma in_select_chunk sel st en (a : list Z) x :
  length sel = length a ->
  In x (Np.select (chunk_sel sel st en) a) -> In x (Np.select sel a).
Proof.
  intros Hl H.
  apply in_select in H; [|rewrite length_chunk_sel; exact Hl].
  destruct H as (j & Hj & Hm & E).
  apply in_select; [exact Hl|]. exists j. split; [exact Hj|].
  split; [apply (nth_chunk_sel _ _ _ _ Hm) | exact E].
Qed.

Section RunFacts.

Variable npl : nat.
Variable ft nt : Z.
Variable glob : nat -> list h5file.
Hypothesis npl_pos : (0 < npl)%nat.
Hypothesis frames_u8 : Z.of_nat (frames npl nt) <= 2 ^ 64.

Lemma length_file_mask f : length (file_mask npl ft nt f) = length (image f).
Proof. unfold file_mask. rewrite length_validate, length_map. reflexivity. Qed.

Lemma chunk_step_layout m f c L L' :
  In f (glob m) -> layout_ok npl ft nt glob L ->
  chunk_step npl ft nt m f (file_mask npl ft nt f) c L = Next L' -> layout_ok npl ft nt glob L'.
Proof.
  intros Hf HL. rewrite chunk_step_cases. cbv zeta.
  destruct (chunk_mismatch _ _ _ _ _ _); [discriminate|].
  destruct (Np.sum _ =? 0)%nat; intros H; injection H as <-; [exact HL|].
  intros m' p s Hin. unfold assign in Hin. apply in_app_or in Hin.
  destruct Hin as [Hin | Hin]; [|apply (HL _ _ _ Hin)].
  apply in_combine_l in Hin. apply in_map_iff in Hin.
  destruct Hin as (p' & E & Hp). injection E as <- <-.
  unfold chunk_ind in Hp. apply in_where_in1d in Hp. destruct Hp as [Hlt Hp].
  rewrite length_all_flatid in Hlt by exact npl_pos.
  rewrite (nth_all_flatid npl ft nt npl_pos frames_u8 p' Hlt) in Hp.
  exists f. split; [exact Hf|].
  unfold chunk_rows in Hp. apply in_select_chunk in Hp; [exact Hp|].
  rewrite length_file_mask, length_flatid. reflexivity.
Qed.

Lemma chunks_loop_layout m f : forall chunks L L',
  In f (glob m) -> layout_ok npl ft nt glob L ->
  chunks_loop npl ft nt m f (file_mask npl ft nt f) chunks L = Next L' -> layout_ok npl ft nt glob L'.
Proof.
  induction chunks as [|c rest IH]; intros L L' Hf HL H.
  - injection H as <-. exact HL.
  - simpl in H.
    destruct (chunk_step npl ft nt m f (file_mask npl ft nt f) c L) eqn:E;
      try discriminate.
    eapply IH; [exact Hf | | exact H]. eapply chunk_step_layout; eauto.
Qed.

Lemma process_file_ok ms m f st st' :
  In m ms -> In f (glob m) ->
  layout_ok npl ft nt glob (layout_data st) -> ids_ok npl ft nt glob ms st ->
  process_file npl ft nt m st f = Next st' ->
  layout_ok npl ft nt glob (layout_data st') /\ ids_ok npl ft nt glob ms st'.
Proof.
  intros Hm Hf HL HI. unfold process_file.
  fold (file_mask npl ft nt f).
  destruct (Np.sum (file_mask npl ft nt f) =? 0)%nat.
  { intros H. injection H as <-. auto. }
  destruct (chunks_loop _ _ _ _ _ _ _ _) as [L| |] eqn:EL; try discriminate.
  destruct (mask_write (outdset_cid st) _ _) as [c1|] eqn:Ec; [|discriminate].
  destruct (mask_write (outdset_pid st) _ _) as [p1|] eqn:Ep; [|discriminate].
  intros H. injection H as <-. simpl. split.
  - eapply chunks_loop_layout; eauto.
  - intros p Hp Hns. simpl.
    assert (Hmask : nth p (sel_indices npl ft nt
              (Np.select (file_mask npl ft nt f) (map trainId (image f)))) false = false).
    { rewrite sel_indices_in1d. unfold Np.in1d.
      rewrite nth_map_lt with (d' := 0) by (rewrite length_all_trains; exact Hp).
      destruct (Np.mem _ _) eqn:E; [|reflexivity].
      exfalso. apply Hns. exists m, f. split; [exact Hm|]. split; [exact Hf|].
      apply mem_In, E. }
    rewrite (mask_write_untouched _ _ _ _ p Ec Hmask).
    rewrite (mask_write_untouched _ _ _ _ p Ep Hmask).
    apply HI; assumption.
Qed.

Lemma files_loop_ok ms m : forall fl st st',
  In m ms -> (forall f, In f fl -> In f (glob m)) ->
  layout_ok npl ft nt glob (layout_data st) -> ids_ok npl ft nt glob ms st ->
  files_loop npl ft nt m st fl = Next st' ->
  layout_ok npl ft nt glob (layout_data st') /\ ids_ok npl ft nt glob ms st'.
Proof.
  induction fl as [|f rest IH]; intros st st' Hm Hfl HL HI H.
  - injection H as <-. auto.
  - simpl in H. destruct (process_file npl ft nt m st f) as [st1| |] eqn:E;
      try discriminate.
    destruct (process_file_ok ms m f st st1) as [HL1 HI1]; auto.
    { apply Hfl. left. reflexivity. }
    eapply IH; [exact Hm | | exact HL1 | exact HI1 | exact H].
    intros g Hg. apply Hfl. right. exact Hg.
Qed.

Lemma modules_loop_ok ms : forall rest st st',
  (forall m, In m rest -> In m ms) ->
  layout_ok npl ft nt glob (layout_data st) -> ids_ok npl ft nt glob ms st ->
  modules_loop npl ft nt glob rest st = Next st' ->
  layout_ok npl ft nt glob (layout_data st') /\ ids_ok npl ft nt glob ms st'.
Proof.
  induction rest as [|m rest IH]; intros st st' Hsub HL HI H.
  - injection H as <-. auto.
  - simpl in H. destruct (files_loop npl ft nt m st (glob m)) as [st1| |] eqn:E;
      try discriminate.
    destruct (files_loop_ok ms m (glob m) st st1) as [HL1 HI1]; auto.
    { apply Hsub. left. reflexivity. }
    eapply IH; [ | exact HL1 | exact HI1 | exact H].
    intros m' Hm'. apply Hsub. right. exact Hm'.
Qed.

Lemma init_state_ok ms :
  layout_ok npl ft nt glob (layout_data (init_state npl nt)) /\ ids_ok npl ft nt glob ms (init_state npl nt).
Proof.
  split.
  - intros m p s [].
  - intros p Hp _. simpl. rewrite !nth_repeat_lt by exact Hp. auto.
Qed.

End RunFacts.



(** C2 (counterexample).  Module 0 supplies train 100 in full and
    nothing else does.  At position 128, the first slot of train 101,
    the layout has no entry and the cell and pulse ids read 65535, but
    the train id array reads 101: it is the timeline itself and has no
    fill.  In the run over the file whose row 32 repeats cell 0, no row
    computes position 32 and the layout has no entry for it, yet the
    cell id array reads 0 there, the cell id of row 32. *)
Lemma C2_ids_differ_from_fill :
  match main full_train_glob with
  | (Finished, Some {| out_trainId := tr; out_cellId := ci; out_pulseId := pu;
                       out_data := Some L |}) =>
      forallb (fun e => negb (snd (fst e) =? 128)%nat) L = true /\
      read_data L 0 128 = FillValue 65535 /\
      nth 128 ci 0 = 65535 /\ nth 128 pu 0 = 65535 /\
      nth 128 tr 0 = 101
  | _ => False
  end /\
  match main repeated_cell_glob with
  | (Finished, Some {| out_cellId := ci; out_data := Some L |}) =>
      forallb (fun e => negb (snd (fst e) =? 32)%nat) L = true /\
      read_data L 0 32 = FillValue 65535 /\
      nth 32 ci 0 = 0
  | _ => False
  end.
Proof. vm_compute. repeat split; reflexivity. Qed.

(** C2 (as amended).  Take a run whose index files hold train ids
    below 2^53 and whose timeline ends at or below 2^53, so that the
    float64 operations of the scan, of [np.arange] and of line 101 are
    exact.  In the output of such a run, when it finishes, the train id
    array is the timeline as the float64 steps of [np.arange] give it
    and reads [firstTrainId + p / pulsesPerTrain] at every canonical
    position [p]; the payload of module [m] at [p] reads the fill value
    65535 when no surviving row of a file of [m] computes position [p];
    and the cell and pulse id arrays read 65535 at [p] when no file of
    any module has a surviving row of the train of [p]. *)
Theorem C2_fill_where_nothing_supplied npl modules glob ft nt :
  (0 < npl)%nat ->
  Z.of_nat (frames npl nt) <= 2 ^ 64 ->
  index_ids_exact (map glob modules) ->
  Timeline.build (map glob modules) = Some (ft, nt) ->
  timeline_exact ft nt ->
  fst (run npl modules glob) = Finished ->
  exists o L,
    snd (run npl modules glob) = Some o /\ out_data o = Some L /\
    out_trainId o = Np.repeat_each (Float64.arange ft nt) npl /\
    (forall p, (p < frames npl nt)%nat ->
               nth p (out_trainId o) 0 = ft + Z.of_nat (p / npl)) /\
    (forall m p, ~ supplies npl ft nt glob m p ->
                 read_data L m p = FillValue FILL) /\
    (forall p, (p < frames npl nt)%nat ->
               ~ train_seen npl ft nt glob modules p ->
               nth p (out_cellId o) 0 = FILL /\ nth p (out_pulseId o) 0 = FILL).
Proof.
  intros Hn Hu _ Hb Hex Hfin.
  pose proof (run_cases npl modules glob) as R. rewrite Hb in R.
  destruct (glob 0%nat); [rewrite R in Hfin; discriminate|].
  destruct (modules_loop npl ft nt glob modules (init_state npl nt)) as [st| |] eqn:EL;
    rewrite R in Hfin; try discriminate.
  destruct (init_state_ok npl ft nt glob modules) as [HL0 HI0].
  destruct (modules_loop_ok npl ft nt glob Hn Hu modules modules _ st
              (fun m H => H) HL0 HI0 EL) as [HL HI].
  exists (artifact npl ft nt st true), (layout_data st).
  rewrite R. split; [reflexivity|]. split; [reflexivity|]. split; [|split; [|split]].
  - simpl. unfold all_trains.
    rewrite (Float64Facts.arange_exact ft nt Hex). reflexivity.
  - intros p Hp. simpl. apply nth_all_trains; assumption.
  - intros m p Hns. unfold read_data.
    destruct (layout_lookup (layout_data st) m p) as [s|] eqn:E; [|reflexivity].
    exfalso. apply Hns. apply (HL m p s). apply layout_lookup_In, E.
  - intros p Hp Hns. simpl. apply HI; assumption.
Qed.

Lemma C2_fill_where_nothing_supplied_witness :
  exists o L,
    snd (main full_train_glob) = Some o /\ out_data o = Some L /\
    out_trainId o = Np.repeat_each (Float64.arange 100 4) npulses /\
    (forall p, (p < frames npulses 4)%nat ->
               nth p (out_trainId o) 0 = 100 + Z.of_nat (p / npulses)) /\
    (forall m p, ~ supplies npulses 100 4 full_train_glob m p ->
                 read_data L m p = FillValue FILL) /\
    (forall p, (p < frames npulses 4)%nat ->
               ~ train_seen npulses 100 4 full_train_glob (seq 0 NMODULES) p ->
               nth p (out_cellId o) 0 = FILL /\ nth p (out_pulseId o) 0 = FILL).
Proof.
  apply (C2_fill_where_nothing_supplied npulses (seq 0 NMODULES) full_train_glob 100 4).
  - vm_compute. lia.
  - vm_compute. discriminate.
  - apply index_ids_exactb_spec. vm_compute. reflexivity.
  - vm_compute. reflexivity.
  - split; [lia | split; [lia | vm_compute; discriminate]].
  - vm_compute. reflexivity.
Defined.

(** C3 (counterexample).  The first file of module 0 is mapped and its
    cell and pulse ids are written; the only row of the second file
    makes the counts of its chunk differ and [main] returns.  The output
    file opened at line 77 is still there: it holds the train ids and
    the cell and pulse ids of the first file, and no virtual data set. *)
Lemma C3_output_left_after_abort :
  match main late_abort_glob with
  | (Aborted msg, Some o) =>
      msg = {| mm_file := "AGIPD00-S00001.h5"; mm_chunk := 0; mm_chunks := 1;
               mm_sel := 1; mm_ind := 0 |} /\
      out_data o = None /\
      length (out_trainId o) = 640%nat /\
      nth 5 (out_cellId o) 0 = 5 /\ nth 5 (out_pulseId o) 0 = 40 /\
      nth 128 (out_cellId o) 0 = 65535
  | _ => False
  end.
Proof. vm_compute. repeat split; reflexivity. Qed.

(** ** Where a run is when it aborts *)

Section AbortFacts.

Variable npl : nat.
Variable ft nt : Z.

(** The loop over the chunks returns at the first chunk whose counts
    differ, with the message of that chunk. *)
Lemma chunks_loop_returned_first m f sel : forall n s L msg L',
  chunks_loop npl ft nt m f sel (seq s n) L = Returned msg L' ->
  (s <= mm_chunk msg < s + n)%nat /\
  mm_chunks msg = num_chunks (length (image f)) /\
  mm_sel msg = Np.sum (chunk_rows (length (image f)) sel (mm_chunk msg)) /\
  mm_ind msg = length (chunk_ind npl ft nt (image f)
                         (chunk_rows (length (image f)) sel (mm_chunk msg))) /\
  (forall c, (s <= c < mm_chunk msg)%nat ->
             chunk_mismatch npl ft nt f sel c = false).
Proof.
  induction n as [|n IH]; intros s L msg L' H; [discriminate|].
  simpl in H. rewrite chunk_step_cases in H. cbv zeta in H.
  destruct (chunk_mismatch npl ft nt f sel s) eqn:E.
  - injection H as <- _. simpl.
    split; [lia|]. split; [reflexivity|]. split; [reflexivity|].
    split; [reflexivity|]. intros c Hc. lia.
  - assert (H' : exists L1,
              chunks_loop npl ft nt m f sel (seq (S s) n) L1 = Returned msg L').
    { destruct (Np.sum _ =? 0)%nat; eauto. }
    destruct H' as (L1 & H1).
    destruct (IH _ _ _ _ H1) as (A & B & C & D & F).
    split; [lia|]. split; [exact B|]. split; [exact C|]. split; [exact D|].
    intros c Hc. destruct (Nat.eq_dec c s) as [-> | Hne]; [exact E|].
    apply F. lia.
Qed.

(** A file that returns leaves both id arrays as they were. *)
Lemma process_file_returned_first m st f msg st' :
  process_file npl ft nt m st f = Returned msg st' ->
  outdset_cid st' = outdset_cid st /\ outdset_pid st' = outdset_pid st /\
  mm_file msg = fname f /\
  (mm_chunk msg < num_chunks (length (image f)))%nat /\
  mm_chunks msg = num_chunks (length (image f)) /\
  mm_sel msg = Np.sum (chunk_rows (length (image f)) (file_mask npl ft nt f)
                                  (mm_chunk msg)) /\
  mm_ind msg = length (chunk_ind npl ft nt (image f)
                         (chunk_rows (length (image f)) (file_mask npl ft nt f)
                                     (mm_chunk msg))) /\
  mm_sel msg <> mm_ind msg /\
  (forall c, (c < mm_chunk msg)%nat ->
             chunk_mismatch npl ft nt f (file_mask npl ft nt f) c = false).
Proof.
  intros H.
  destruct (process_file_returned npl ft nt m st f msg st' H)
    as (A & B & C & D & E1 & E2).
  split; [exact E1|]. split; [exact E2|]. split; [exact A|]. split; [exact B|].
  unfold process_file in H. fold (file_mask npl ft nt f) in H.
  destruct (Np.sum (file_mask npl ft nt f) =? 0)%nat; [discriminate|].
  destruct (chunks_loop npl ft nt m f (file_mask npl ft nt f) _ (layout_data st))
    as [L|msg' L|L] eqn:EL.
  - destruct (mask_write (outdset_cid st) _ _); [|discriminate].
    destruct (mask_write (outdset_pid st) _ _); discriminate.
  - injection H as -> _.
    destruct (chunks_loop_returned_first _ _ _ _ _ _ _ _ EL) as (_ & P & Q & R & S).
    split; [exact P|]. split; [exact Q|]. split; [exact R|]. split; [exact D|].
    intros c Hc. apply S. lia.
  - discriminate.
Qed.

(** The loop over the files returns in one file, after the files
    before it were processed to the end. *)
Lemma files_loop_returned_at m : forall fl st msg st',
  files_loop npl ft nt m st fl = Returned msg st' ->
  exists fl1 f fl2 st1,
    fl = fl1 ++ f :: fl2 /\
    files_loop npl ft nt m st fl1 = Next st1 /\
    process_file npl ft nt m st1 f = Returned msg st'.
Proof.
  induction fl as [|f0 rest IH]; intros st msg st' H; [discriminate|].
  simpl in H. destruct (process_file npl ft nt m st f0) as [s1|msg1 s1|s1] eqn:E;
    try discriminate.
  - destruct (IH _ _ _ H) as (fl1 & f & fl2 & st1 & E1 & E2 & E3).
    exists (f0 :: fl1), f, fl2, st1.
    split; [rewrite E1; reflexivity|]. split; [|exact E3].
    simpl. rewrite E. exact E2.
  - injection H as <- <-. exists [], f0, rest, st.
    split; [reflexivity|]. split; [reflexivity | exact E].
Qed.

(** The loop over the modules returns in one file of one module,
    after the modules before it and the files before it were
    processed to the end. *)
Lemma modules_loop_returned_at glob : forall ms st msg st',
  modules_loop npl ft nt glob ms st = Returned msg st' ->
  exists ms1 m ms2 fl1 f fl2 st1 st2,
    ms = ms1 ++ m :: ms2 /\ glob m = fl1 ++ f :: fl2 /\
    modules_loop npl ft nt glob ms1 st = Next st1 /\
    files_loop npl ft nt m st1 fl1 = Next st2 /\
    process_file npl ft nt m st2 f = Returned msg st'.
Proof.
  induction ms as [|m0 rest IH]; intros st msg st' H; [discriminate|].
  simpl in H. destruct (files_loop npl ft nt m0 st (glob m0)) as [s1|msg1 s1|s1] eqn:E;
    try discriminate.
  - destruct (IH _ _ _ H) as (ms1 & m & ms2 & fl1 & f & fl2 & st1 & st2 &
                               E1 & E2 & E3 & E4 & E5).
    exists (m0 :: ms1), m, ms2, fl1, f, fl2, st1, st2.
    split; [rewrite E1; reflexivity|]. split; [exact E2|].
    split; [simpl; rewrite E; exact E3|]. split; [exact E4 | exact E5].
  - injection H as <- <-.
    destruct (files_loop_returned_at _ _ _ _ _ E) as (fl1 & f & fl2 & st1 & E1 & E2 & E3).
    exists [], m0, rest, fl1, f, fl2, st, st1.
    split; [reflexivity|]. split; [exact E1|].
    split; [reflexivity|]. split; [exact E2 | exact E3].
Qed.

End AbortFacts.

(** C3 (as amended).  Take a run whose index files hold train ids
    below 2^53 and whose timeline ends at or below 2^53.  When [main]
    returns because the counts of a chunk differ, the output file
    opened before the loops is left in place.  It holds no virtual data
    set; its train id array is the timeline; its cell and pulse id
    arrays are those of the moment of the abort, that is, as the
    modules before the aborting one and the files before the aborting
    one left them, the aborting file having written nothing.  The
    message names that file, gives the number of its chunks and the two
    differing counts of the chunk it names, and that chunk is the first
    of the file whose counts differ. *)
Theorem C3_abort_leaves_output_without_data npl modules glob ft nt msg :
  index_ids_exact (map glob modules) ->
  Timeline.build (map glob modules) = Some (ft, nt) ->
  timeline_exact ft nt ->
  fst (run npl modules glob) = Aborted msg ->
  exists o,
    snd (run npl modules glob) = Some o /\
    out_data o = None /\
    out_trainId o = all_trains npl ft nt /\
    out_trainId o = Np.repeat_each (Float64.arange ft nt) npl /\
    exists ms1 m ms2 fl1 f fl2 st1 st2,
      modules = ms1 ++ m :: ms2 /\ glob m = fl1 ++ f :: fl2 /\
      In m modules /\ In f (glob m) /\
      modules_loop npl ft nt glob ms1 (init_state npl nt) = Next st1 /\
      files_loop npl ft nt m st1 fl1 = Next st2 /\
      out_cellId o = outdset_cid st2 /\ out_pulseId o = outdset_pid st2 /\
      mm_file msg = fname f /\
      (mm_chunk msg < num_chunks (length (image f)))%nat /\
      mm_chunks msg = num_chunks (length (image f)) /\
      mm_sel msg = Np.sum (chunk_rows (length (image f)) (file_mask npl ft nt f)
                                      (mm_chunk msg)) /\
      mm_ind msg = length (chunk_ind npl ft nt (image f)
                             (chunk_rows (length (image f)) (file_mask npl ft nt f)
                                         (mm_chunk msg))) /\
      mm_sel msg <> mm_ind msg /\
      (forall c, (c < mm_chunk msg)%nat ->
                 chunk_mismatch npl ft nt f (file_mask npl ft nt f) c = false).
Proof.
  intros _ Hb Hex Hab. pose proof (run_cases npl modules glob) as R.
  rewrite Hb in R.
  destruct (glob 0%nat) eqn:G0; [rewrite R in Hab; discriminate|].
  destruct (modules_loop npl ft nt glob modules (init_state npl nt)) as [st|msg' st|st] eqn:EL;
    rewrite R in Hab; try discriminate.
  simpl in Hab. injection Hab as ->.
  exists (artifact npl ft nt st false).
  rewrite R. split; [reflexivity|]. split; [reflexivity|].
  split; [reflexivity|].
  split; [simpl; unfold all_trains;
          rewrite (Float64Facts.arange_exact ft nt Hex); reflexivity|].
  destruct (modules_loop_returned_at _ _ _ _ _ _ _ _ EL)
    as (ms1 & m & ms2 & fl1 & f & fl2 & st1 & st2 & E1 & E2 & E3 & E4 & E5).
  destruct (process_file_returned_first _ _ _ _ _ _ _ _ E5)
    as (C1 & C2 & A & B & P & Q & T & D & S).
  exists ms1, m, ms2, fl1, f, fl2, st1, st2.
  split; [exact E1|]. split; [exact E2|].
  split; [rewrite E1; apply in_or_app; right; left; reflexivity|].
  split; [rewrite E2; apply in_or_app; right; left; reflexivity|].
  split; [exact E3|]. split; [exact E4|].
  split; [exact C1|]. split; [exact C2|].
  split; [exact A|]. split; [exact B|]. split; [exact P|]. split; [exact Q|].
  split; [exact T|]. split; [exact D | exact S].
Qed.

Lemma C3_abort_leaves_output_without_data_witness :
  exists o,
    snd (main late_abort_glob) = Some o /\
    out_data o = None /\
    out_trainId o = all_trains npulses 100 5 /\
    out_trainId o = Np.repeat_each (Float64.arange 100 5) npulses /\
    exists ms1 m ms2 fl1 f fl2 st1 st2,
      seq 0 NMODULES = ms1 ++ m :: ms2 /\ late_abort_glob m = fl1 ++ f :: fl2 /\
      In m (seq 0 NMODULES) /\ In f (late_abort_glob m) /\
      modules_loop npulses 100 5 late_abort_glob ms1 (init_state npulses 5) = Next st1 /\
      files_loop npulses 100 5 m st1 fl1 = Next st2 /\
      out_cellId o = outdset_cid st2 /\ out_pulseId o = outdset_pid st2 /\
      mm_file {| mm_file := "AGIPD00-S00001.h5"; mm_chunk := 0;
                 mm_chunks := 1; mm_sel := 1; mm_ind := 0 |} = fname f /\
      (0 < num_chunks (length (image f)))%nat /\
      1%nat = num_chunks (length (image f)) /\
      1%nat = Np.sum (chunk_rows (length (image f)) (file_mask npulses 100 5 f) 0) /\
      0%nat = length (chunk_ind npulses 100 5 (image f)
                        (chunk_rows (length (image f)) (file_mask npulses 100 5 f) 0)) /\
      1%nat <> 0%nat /\
      (forall c, (c < 0)%nat ->
                 chunk_mismatch npulses 100 5 f (file_mask npulses 100 5 f) c = false).
Proof.
  apply (C3_abort_leaves_output_without_data npulses (seq 0 NMODULES) late_abort_glob
           100 5
           {| mm_file := "AGIPD00-S00001.h5"; mm_chunk := 0;
              mm_chunks := 1; mm_sel := 1; mm_ind := 0 |}).
  - apply index_ids_exactb_spec. vm_compute. reflexivity.
  - vm_compute. reflexivity.
  - split; [lia | split; [lia | vm_compute; discriminate]].
  - vm_compute. reflexivity.
Defined.



(** ** More on the extent of the run *)

Module TimelineBounds.
Import Timeline TimelineRule TimelineFacts.

Lemma fold_min_le t : forall x, fold_left Z.min t x <= x /\
  (forall y, In y t -> fold_left Z.min t x <= y) /\
  In (fold_left Z.min t x) (x :: t).
Proof.
  induction t as [|a t IH]; intros x; simpl.
  - split; [lia|]. split; [intros y []|]. left. reflexivity.
  - destruct (IH (Z.min x a)) as (H1 & H2 & H3). split; [lia|]. split.
    + intros y [<- | Hy]; [lia | apply H2, Hy].
    + destruct H3 as [H3 | H3]; [|right; right; exact H3].
      rewrite <- H3. destruct (Z.min_spec x a) as [[_ E] | [_ E]]; rewrite E; auto.
Qed.

Lemma fold_max_ge t : forall x, x <= fold_left Z.max t x /\
  (forall y, In y t -> y <= fold_left Z.max t x) /\
  In (fold_left Z.max t x) (x :: t).
Proof.
  induction t as [|a t IH]; intros x; simpl.
  - split; [lia|]. split; [intros y []|]. left. reflexivity.
  - destruct (IH (Z.max x a)) as (H1 & H2 & H3). split; [lia|]. split.
    + intros y [<- | Hy]; [lia | apply H2, Hy].
    + destruct H3 as [H3 | H3]; [|right; right; exact H3].
      rewrite <- H3. destruct (Z.max_spec x a) as [[_ E] | [_ E]]; rewrite E; auto.
Qed.

(** [lo] and [hi] of a non-empty index array are its least and
    greatest entries. *)
Lemma lo_hi_bounds f :
  INDEX_trainId f <> [] ->
  In (lo f) (INDEX_trainId f) /\ In (hi f) (INDEX_trainId f) /\
  forall t, In t (INDEX_trainId f) -> lo f <= t <= hi f.
Proof.
  unfold lo, hi. destruct (INDEX_trainId f) as [|x t]; [congruence|]. intros _.
  simpl Np.amin. simpl Np.amax. cbv iota.
  destruct (fold_min_le t x) as (A1 & A2 & A3).
  destruct (fold_max_ge t x) as (B1 & B2 & B3).
  split; [exact A3|]. split; [exact B3|].
  intros y [<- | Hy]; [lia|]. split; [apply A2, Hy | apply B2, Hy].
Qed.

Lemma file_step_none ln s f :
  file_step ln s f = None <-> INDEX_trainId f = [].
Proof.
  split.
  - intros H. destruct (INDEX_trainId f) as [|x t] eqn:E; [reflexivity|].
    rewrite file_step_nonempty in H by (rewrite E; discriminate). discriminate.
  - intros E. unfold file_step. rewrite E. reflexivity.
Qed.

Lemma files_loop_none ln : forall fl s,
  files_loop ln s fl = None <-> exists f, In f fl /\ INDEX_trainId f = [].
Proof.
  induction fl as [|f rest IH]; intros s; simpl.
  - split; [discriminate | intros (f & [] & _)].
  - destruct (file_step ln s f) as [s1|] eqn:E.
    + rewrite IH. split.
      * intros (g & Hg & Eg). exists g. auto.
      * intros (g & [<- | Hg] & Eg).
        -- apply (file_step_none ln s) in Eg. congruence.
        -- exists g. auto.
    + split; [|reflexivity]. intros _. exists f. split; [left; reflexivity|].
      apply (file_step_none ln s). exact E.
Qed.

Lemma modules_loop_none : forall ms acc,
  modules_loop acc ms = None <->
  exists fl f, In fl ms /\ In f fl /\ INDEX_trainId f = [].
Proof.
  induction ms as [|fl rest IH]; intros [n ft]; simpl.
  - split; [discriminate | intros (fl & f & [] & _)].
  - destruct (files_loop (lastname_of fl) _ fl) as [s|] eqn:E.
    + rewrite IH. split.
      * intros (gl & g & Hgl & Hg & Eg). exists gl, g. auto.
      * intros (gl & g & [<- | Hgl] & Hg & Eg).
        -- assert (files_loop (lastname_of fl)
                     {| ftrain := ft; tmin := maxsize; tmax := 0 |} fl = None)
             by (apply files_loop_none; eauto).
           congruence.
        -- exists gl, g. auto.
    + split; [|reflexivity]. intros _.
      apply files_loop_none in E. destruct E as (g & Hg & Eg).
      exists fl, g. split; [left; reflexivity | auto].
Qed.

Lemma build_none ms :
  build ms = None <-> exists fl f, In fl ms /\ In f fl /\ INDEX_trainId f = [].
Proof.
  unfold build. rewrite <- (modules_loop_none ms (-1, maxsize)).
  destruct (modules_loop (-1, maxsize) ms) as [[n ft]|]; split;
    try discriminate; reflexivity.
Qed.

Lemma build_some_nonempty ms r :
  build ms = Some r ->
  forall fl f, In fl ms -> In f fl -> INDEX_trainId f <> [].
Proof.
  intros H fl f Hfl Hf E.
  assert (build ms = None) by (apply build_none; eauto). congruence.
Qed.

Lemma build_closed ms ft nt :
  build ms = Some (ft, nt) -> ft = firstTrainId ms /\ nt = trainCount ms.
Proof.
  intros H. pose proof (build_some_nonempty ms _ H) as Hne.
  unfold build in H.
  rewrite modules_loop_closed in H by (try assumption; lia).
  injection H as <- <-. split; reflexivity.
Qed.

Lemma list_min_le d l : list_min d l <= d /\ forall x, In x l -> list_min d l <= x.
Proof.
  unfold list_min. induction l as [|a l [IH1 IH2]]; simpl.
  - split; [lia | intros x []].
  - split; [lia|]. intros x [<- | Hx]; [lia|]. specialize (IH2 x Hx). lia.
Qed.

Lemma list_max_ge d l : d <= list_max d l /\ forall x, In x l -> x <= list_max d l.
Proof.
  unfold list_max. induction l as [|a l [IH1 IH2]]; simpl.
  - split; [lia | intros x []].
  - split; [lia|]. intros x [<- | Hx]; [lia|]. specialize (IH2 x Hx). lia.
Qed.

Lemma within_in_through f : forall fl,
  In f fl -> oversized f = false -> In f (through_last_within fl).
Proof.
  induction fl as [|g rest IH]; intros Hf Ho; [destruct Hf|].
  simpl. destruct Hf as [-> | Hf].
  - rewrite Ho. simpl. left. reflexivity.
  - assert (Hw : has_within rest = true).
    { unfold has_within. apply existsb_exists. exists f. rewrite Ho. auto. }
    rewrite Hw, orb_true_r. right. apply IH; assumption.
Qed.

Lemma mod_tmin_le_within fl f :
  In f fl -> oversized f = false -> mod_tmin fl <= lo f.
Proof.
  intros Hf Ho. unfold mod_tmin. apply (proj2 (list_min_le _ _)).
  apply in_map. apply filter_In. split; [exact Hf|]. rewrite Ho. reflexivity.
Qed.

Lemma mod_tmax_ge_within fl f :
  In f fl -> oversized f = false -> hi f <= mod_tmax fl.
Proof.
  intros Hf Ho. unfold mod_tmax, mod_tmax_with. apply (proj2 (list_max_ge _ _)).
  apply in_map_iff. exists f. rewrite Ho. split; [reflexivity|].
  apply filter_In. split; [exact Hf|]. rewrite Ho. reflexivity.
Qed.

Lemma mod_tmin_nonneg fl :
  (forall f t, In f fl -> In t (INDEX_trainId f) -> 0 <= t) ->
  (forall f, In f fl -> INDEX_trainId f <> []) ->
  0 <= mod_tmin fl.
Proof.
  intros Hpos Hne. unfold mod_tmin, list_min.
  induction fl as [|g rest IH]; simpl; [unfold maxsize; lia|].
  assert (IH' : 0 <= fold_right Z.min maxsize
             (map lo (filter (fun f => negb (oversized f) || (lo f >? 0)) rest))).
  { apply IH; intros; [eapply Hpos | apply Hne]; eauto; right; eassumption. }
  destruct (negb (oversized g) || (lo g >? 0)); simpl; [|exact IH'].
  assert (0 <= lo g).
  { apply (Hpos g); [left; reflexivity|].
    apply lo_hi_bounds. apply Hne. left. reflexivity. }
  lia.
Qed.

Lemma mod_tmax_below fl B :
  0 < B ->
  (forall f t, In f fl -> In t (INDEX_trainId f) -> t < B) ->
  (forall f, In f fl -> INDEX_trainId f <> []) ->
  mod_tmax fl < B.
Proof.
  intros HB Hlt Hne. unfold mod_tmax, mod_tmax_with, list_max.
  generalize (lastname_of fl). intros ln.
  induction fl as [|g rest IH]; simpl; [lia|].
  assert (IH' : fold_right Z.max 0
            (map (fun f => if oversized f then last (INDEX_trainId f) 0 else hi f)
               (filter (fun f => negb (oversized f) || String.eqb (fname f) ln) rest)) < B).
  { apply IH; intros; [eapply Hlt | apply Hne]; eauto; right; eassumption. }
  destruct (negb (oversized g) || String.eqb (fname g) ln); simpl; [|exact IH'].
  assert (Hg : INDEX_trainId g <> []) by (apply Hne; left; reflexivity).
  assert ((if oversized g then last (INDEX_trainId g) 0 else hi g) < B).
  { destruct (oversized g).
    - apply (Hlt g); [left; reflexivity|].
      destruct (exists_last Hg) as (l' & a & E). rewrite E, last_last.
      apply in_or_app. right. left. reflexivity.
    - apply (Hlt g); [left; reflexivity|]. apply lo_hi_bounds, Hg. }
  lia.
Qed.

Lemma start_le_within ms fl f :
  In fl ms -> In f fl -> oversized f = false -> firstTrainId ms <= lo f.
Proof.
  intros Hfl Hf Ho.
  assert (H1 : firstTrainId ms <= mod_start fl).
  { unfold firstTrainId. apply (proj2 (list_min_le _ _)). apply in_map, Hfl. }
  assert (H2 : mod_start fl <= lo f).
  { unfold mod_start. apply mod_tmin_le_within;
      [apply within_in_through; assumption | exact Ho]. }
  lia.
Qed.

Lemma through_incl f : forall fl, In f (through_last_within fl) -> In f fl.
Proof.
  induction fl as [|g rest IH]; intros H; [destruct H|].
  simpl in H. destruct (negb (oversized g) || has_within rest); [|destruct H].
  destruct H as [-> | H]; [left; reflexivity | right; apply IH, H].
Qed.

Lemma list_min_nonneg d l :
  0 <= d -> (forall x, In x l -> 0 <= x) -> 0 <= list_min d l.
Proof.
  intros Hd. unfold list_min. induction l as [|a l IH]; intros H; simpl; [exact Hd|].
  assert (0 <= a) by (apply H; left; reflexivity).
  assert (0 <= fold_right Z.min d l) by (apply IH; intros x Hx; apply H; right; exact Hx).
  lia.
Qed.

(** With train ids that are not negative the run does not start
    below 0. *)
Lemma start_nonneg ms :
  (forall fl f t, In fl ms -> In f fl -> In t (INDEX_trainId f) -> 0 <= t) ->
  (forall fl f, In fl ms -> In f fl -> INDEX_trainId f <> []) ->
  0 <= firstTrainId ms.
Proof.
  intros Hpos Hne. unfold firstTrainId.
  apply list_min_nonneg; [unfold maxsize; lia|].
  intros x Hx. apply in_map_iff in Hx. destruct Hx as (fl & <- & Hfl).
  unfold mod_start. apply mod_tmin_nonneg.
  - intros f t Hf Ht. apply (Hpos fl f t Hfl); [apply through_incl, Hf | exact Ht].
  - intros f Hf. apply (Hne fl f Hfl). apply through_incl, Hf.
Qed.

End TimelineBounds.

(** X1.  The scan of the index files raises (the [ValueError] of
    [tid.max()] on an empty array, line 47) exactly when some file of
    some module has an empty [INDEX/trainId]; a run over such files ends
    with that exception before the output file is opened. *)
Theorem X1_empty_index_array_raises :
  (forall ms,
      Timeline.build ms = None <->
      exists fl f, In fl ms /\ In f fl /\ INDEX_trainId f = []) /\
  (forall npl modules glob,
      (exists m f, In m modules /\ In f (glob m) /\ INDEX_trainId f = []) ->
      run npl modules glob = (Crashed, None)).
Proof.
  split; [apply TimelineBounds.build_none|].
  intros npl modules glob (m & f & Hm & Hf & E). unfold run.
  assert (H : Timeline.build (map glob modules) = None).
  { apply TimelineBounds.build_none. exists (glob m), f.
    split; [apply in_map, Hm | auto]. }
  rewrite H. reflexivity.
Qed.

Lemma X1_empty_index_array_raises_witness :
  Timeline.build (map empty_index_glob (seq 0 NMODULES)) = None /\
  main empty_index_glob = (Crashed, None).
Proof.
  split.
  - apply (proj1 X1_empty_index_array_raises).
    exists [wide_file; empty_index_file], empty_index_file.
    split; [right; left; reflexivity|].
    split; [right; left; reflexivity | reflexivity].
  - apply (proj2 X1_empty_index_array_raises).
    exists 1%nat, empty_index_file.
    split; [right; left; reflexivity|].
    split; [right; left; reflexivity | reflexivity].
Defined.

(** X3.  Whenever the scan returns, the train count is at least 3 (the
    initial -1 plus the margin 4) and the first train is at most
    [sys.maxsize]: the timeline has at least three trains, also when no
    module has any file. *)
Theorem X3_timeline_never_empty ms ft nt :
  Timeline.build ms = Some (ft, nt) ->
  3 <= nt /\ ft <= maxsize /\
  forall npl, (3 * npl <= frames npl nt)%nat.
Proof.
  intros H. apply TimelineBounds.build_closed in H. destruct H as [-> ->].
  assert (H3 : 3 <= TimelineRule.trainCount ms).
  { unfold TimelineRule.trainCount.
    pose proof (proj1 (TimelineBounds.list_max_ge (-1)
                         (map TimelineRule.mod_span ms))). lia. }
  split; [exact H3|]. split.
  - unfold TimelineRule.firstTrainId.
    apply (proj1 (TimelineBounds.list_min_le _ _)).
  - intros npl. unfold frames.
    assert (3 <= Z.to_nat (TimelineRule.trainCount ms))%nat by lia. nia.
Qed.

Lemma X3_timeline_never_empty_witness :
  Timeline.build [[steady_file]; [wide_file]] = Some (200, 304) /\
  3 <= 304 /\ 200 <= maxsize /\ (3 * npulses <= frames npulses 304)%nat.
Proof.
  split; [reflexivity|].
  destruct (X3_timeline_never_empty [[steady_file]; [wide_file]] 200 304 eq_refl)
    as (H1 & H2 & H3).
  split; [exact H1|]. split; [exact H2 | exact (H3 npulses)].
Defined.

(** X4.  For index files with train ids below 2^53, where the
    float64 comparisons of the scan are exact: the first train of the
    run is at or below every train id of every index file whose span is
    within the limit, so that no such file starts before the timeline;
    it is not negative and is its own float64. *)
Theorem X4_start_below_within_limit_files ms ft nt fl f t :
  index_ids_exact ms ->
  Timeline.build ms = Some (ft, nt) ->
  In fl ms -> In f fl ->
  TimelineRule.oversized f = false ->
  In t (INDEX_trainId f) ->
  0 <= ft <= t /\ Float64.round ft = ft.
Proof.
  intros Hex H Hfl Hf Ho Ht.
  pose proof (TimelineBounds.build_some_nonempty ms _ H) as Hne.
  apply TimelineBounds.build_closed in H. destruct H as [-> _].
  pose proof (TimelineBounds.start_le_within ms fl f Hfl Hf Ho).
  pose proof (proj2 (proj2 (TimelineBounds.lo_hi_bounds f (Hne fl f Hfl Hf))) t Ht).
  assert (Hpos : 0 <= TimelineRule.firstTrainId ms).
  { apply TimelineBounds.start_nonneg; [|exact Hne].
    intros gl g u Hgl Hg Hu. apply (Hex gl g u Hgl Hg Hu). }
  pose proof (Hex fl f t Hfl Hf Ht) as Hb.
  split; [lia|]. apply Float64Facts.round_exact. rewrite Z.abs_eq; lia.
Qed.

Lemma X4_start_below_within_limit_files_witness :
  index_ids_exact [[steady_file]; [wide_file]] /\
  Timeline.build [[steady_file]; [wide_file]] = Some (200, 304) /\
  TimelineRule.oversized steady_file = false /\
  In 205 (INDEX_trainId steady_file) /\
  0 <= 200 <= 205 /\ Float64.round 200 = 200.
Proof.
  assert (Hex : index_ids_exact [[steady_file]; [wide_file]])
    by (apply index_ids_exactb_spec; reflexivity).
  split; [exact Hex|].
  split; [reflexivity|]. split; [reflexivity|].
  split; [right; left; reflexivity|].
  apply (X4_start_below_within_limit_files [[steady_file]; [wide_file]] 200 304
           [steady_file] steady_file 205).
  - exact Hex.
  - reflexivity.
  - left. reflexivity.
  - left. reflexivity.
  - reflexivity.
  - right. left. reflexivity.
Defined.

(** X5.  For index files with train ids below 2^53, where the
    float64 comparisons of the scan are exact: the train count exceeds
    by at least 4 the distance from the least train of one within-limit
    file to the greatest train of another within-limit file of the same
    module.  Hence, in a module that holds the first train of the run,
    every train of every within-limit file lies in the timeline with 4
    trains to spare before [firstTrainId + trainCount]. *)
Theorem X5_count_covers_module_span ms ft nt fl f g :
  index_ids_exact ms ->
  Timeline.build ms = Some (ft, nt) ->
  In fl ms -> In f fl -> In g fl ->
  TimelineRule.oversized f = false -> TimelineRule.oversized g = false ->
  TimelineRule.hi f - TimelineRule.lo g + 4 <= nt /\
  (TimelineRule.lo g = ft ->
   forall t, In t (INDEX_trainId f) -> ft <= t /\ t + 4 <= ft + nt).
Proof.
  intros Hex H Hfl Hf Hg Hof Hog.
  assert (Hu : forall h t, In h fl -> In t (INDEX_trainId h) -> 0 <= t < 2 ^ 64).
  { intros h t Hh Ht. pose proof (Hex fl h t Hfl Hh Ht) as Hb.
    assert (E : 2 ^ 53 < 2 ^ 64) by reflexivity. lia. }
  pose proof (TimelineBounds.build_some_nonempty ms _ H fl) as Hne.
  apply TimelineBounds.build_closed in H. destruct H as [Eft Ent].
  pose proof (TimelineBounds.mod_tmin_le_within fl g Hg Hog) as A1.
  pose proof (TimelineBounds.mod_tmin_le_within fl f Hf Hof) as A2.
  pose proof (TimelineBounds.mod_tmax_ge_within fl f Hf Hof) as A3.
  pose proof (TimelineBounds.lo_hi_bounds f (Hne f Hfl Hf)) as (B1 & B2 & B3).
  pose proof (B3 _ B1) as B4.
  assert (A4 : 0 <= TimelineRule.mod_tmin fl).
  { apply TimelineBounds.mod_tmin_nonneg.
    - intros h t Hh Ht. apply (Hu h t Hh Ht).
    - intros h Hh. apply Hne; assumption. }
  assert (A5 : TimelineRule.mod_tmax fl < 2 ^ 64).
  { apply TimelineBounds.mod_tmax_below; [lia | |].
    - intros h t Hh Ht. apply (Hu h t Hh Ht).
    - intros h Hh. apply Hne; assumption. }
  assert (Es : TimelineRule.mod_span fl =
               TimelineRule.mod_tmax fl - TimelineRule.mod_tmin fl).
  { unfold TimelineRule.mod_span, Timeline.span.
    destruct (_ && _); [|reflexivity]. unfold Np.wrap64. apply Z.mod_small. lia. }
  assert (En : TimelineRule.mod_span fl + 4 <= nt).
  { rewrite Ent. unfold TimelineRule.trainCount.
    pose proof (proj2 (TimelineBounds.list_max_ge (-1)
                         (map TimelineRule.mod_span ms))
                      (TimelineRule.mod_span fl)
                      (in_map TimelineRule.mod_span ms fl Hfl)). lia. }
  split; [lia|].
  intros Elo t Ht. pose proof (B3 t Ht).
  pose proof (TimelineBounds.start_le_within ms fl f Hfl Hf Hof).
  lia.
Qed.

Lemma X5_count_covers_module_span_witness :
  index_ids_exact [[steady_file]; [wide_file]] /\
  Timeline.build [[steady_file]; [wide_file]] = Some (200, 304) /\
  TimelineRule.oversized steady_file = false /\
  TimelineRule.hi steady_file - TimelineRule.lo steady_file + 4 <= 304.
Proof.
  assert (Hex : index_ids_exact [[steady_file]; [wide_file]])
    by (apply index_ids_exactb_spec; reflexivity).
  split; [exact Hex|].
  split; [reflexivity|]. split; [reflexivity|].
  exact (proj1 (X5_count_covers_module_span [[steady_file]; [wide_file]] 200 304
                  [steady_file] steady_file steady_file Hex
                  eq_refl (or_introl eq_refl) (or_introl eq_refl)
                  (or_introl eq_refl) eq_refl eq_refl)).
Defined.







(** ** More on validation and chunking *)

Lemma count_firstn_lt t (tid : list Z) : forall j,
  (j < length tid)%nat -> nth j tid 0 = t ->
  (Np.count t (firstn j tid) < Np.count t tid)%nat.
Proof.
  induction tid as [|x tid IH]; intros j Hj Ht; simpl in Hj; [lia|].
  destruct j as [|j]; simpl in Ht.
  - subst x. simpl firstn. rewrite count_cons, Z.eqb_refl.
    unfold Np.count at 1. simpl. lia.
  - simpl firstn. rewrite !count_cons.
    specialize (IH j ltac:(lia) Ht). lia.
Qed.

(** Selecting the rows of train [t] that have fewer than [n] earlier
    rows of that train keeps the first [n] of them. *)
Lemma count_select_first t n : forall tid mask,
  length mask = length tid ->
  (forall j, (j < length tid)%nat -> nth j tid 0 = t ->
             nth j mask false = Nat.ltb (Np.count t (firstn j tid)) n) ->
  Np.count t (Np.select mask tid) = Nat.min n (Np.count t tid).
Proof.
  induction tid as [|x tid IH] using rev_ind; intros mask Hl H.
  - destruct mask; simpl in *; [unfold Np.count; simpl; lia | lia].
  - destruct (exists_last (l := mask)) as (mask' & b & ->).
    { intros ->. rewrite length_app in Hl. simpl in Hl. lia. }
    rewrite !length_app in Hl. simpl in Hl.
    assert (Hl' : length mask' = length tid) by lia.
    rewrite select_app by exact Hl'. rewrite !count_app.
    rewrite (IH mask' Hl').
    2:{ intros j Hj Ht. specialize (H j). rewrite length_app in H. simpl in H.
        rewrite !app_nth1 in H by lia.
        rewrite firstn_app in H. replace (j - length tid)%nat with 0%nat in H by lia.
        simpl in H. rewrite app_nil_r in H. apply H; [lia | exact Ht]. }
    assert (Hb : Np.count t (Np.select [b] [x]) =
                 if b && (t =? x) then 1%nat else 0%nat).
    { destruct b; simpl; [|reflexivity]. rewrite count_cons.
      destruct (t =? x); reflexivity. }
    rewrite Hb. rewrite (count_cons t x []). change (Np.count t []) with 0%nat.
    destruct (t =? x) eqn:E.
    + apply Z.eqb_eq in E. subst x.
      specialize (H (length tid)). rewrite length_app in H. simpl in H.
      rewrite firstn_app, firstn_all, Nat.sub_diag in H. simpl in H.
      rewrite app_nil_r in H.
      assert (Eb : b = Nat.ltb (Np.count t tid) n).
      { rewrite <- H; [| lia |].
        - rewrite <- Hl'. rewrite app_nth2 by lia. rewrite Nat.sub_diag. reflexivity.
        - rewrite app_nth2 by lia. rewrite Nat.sub_diag. reflexivity. }
      rewrite Eb. destruct (Nat.ltb_spec (Np.count t tid) n); simpl; lia.
    + rewrite andb_false_r. lia.
Qed.

Section ValidatorCounts.

Variable npl : nat.
Variable ft nt : Z.

Lemma validate_row_of_train tid j :
  (j < length tid)%nat ->
  nth j (validate npl ft nt tid) false =
  (0 <? nth j tid 0) && (nth j tid 0 <? ltrain ft nt) &&
  Nat.ltb (Np.count (nth j tid 0) (firstn j tid)) npl.
Proof.
  intros Hj. rewrite validate_nth, nth_sel0 by exact Hj. f_equal.
  pose proof (count_firstn_lt (nth j tid 0) tid j Hj eq_refl) as Hlt.
  destruct (Nat.ltb_spec npl (Np.count (nth j tid 0) tid));
    destruct (Nat.leb_spec npl (Np.count (nth j tid 0) (firstn j tid)));
    destruct (Nat.ltb_spec (Np.count (nth j tid 0) (firstn j tid)) npl);
    simpl; try reflexivity; lia.
Qed.

Lemma survivors_count tid t :
  Np.count t (Np.select (validate npl ft nt tid) tid) =
  if (0 <? t) && (t <? ltrain ft nt) then Nat.min npl (Np.count t tid) else 0%nat.
Proof.
  destruct ((0 <? t) && (t <? ltrain ft nt)) eqn:Er.
  - apply count_select_first; [apply length_validate|].
    intros j Hj Ht. rewrite validate_row_of_train by exact Hj.
    rewrite Ht, Er. reflexivity.
  - destruct (Np.count t (Np.select (validate npl ft nt tid) tid)) eqn:Ec;
      [reflexivity|].
    assert (Hin : In t (Np.select (validate npl ft nt tid) tid))
      by (apply count_in; lia).
    apply survivors_in_range in Hin.
    apply andb_false_iff in Er. destruct Er as [Er | Er];
      apply Z.ltb_ge in Er; lia.
Qed.

End ValidatorCounts.

(** X7.  Take a timeline that ends at or below 2^53.  The float64
    comparison of line 101 is then the comparison of integers,
    whatever the train ids of the rows, and after validation a train
    id keeps [min(pulsesPerTrain, n)] of the [n] rows that carry it
    when it is positive and below [ltrain], and none otherwise:
    validation never keeps more than [pulsesPerTrain] rows of a train
    and never drops rows of an in-range train that has at most
    [pulsesPerTrain] of them. *)
Theorem X7_rows_kept_per_train npl ft nt tid t :
  timeline_exact ft nt ->
  Float64.sel0 ft nt tid = sel0 ft nt tid /\
  Np.count t (Np.select (validate npl ft nt tid) tid) =
  if (0 <? t) && (t <? ltrain ft nt) then Nat.min npl (Np.count t tid) else 0%nat.
Proof.
  intros Hex. split; [apply Float64Facts.sel0_exact, Hex | apply survivors_count].
Qed.

Lemma X7_rows_kept_per_train_witness :
  timeline_exact 5 4 /\
  Float64.sel0 5 4 [0; 5; 5; 5; 6; 9] = sel0 5 4 [0; 5; 5; 5; 6; 9] /\
  Np.count 5 (Np.select (validate 2 5 4 [0; 5; 5; 5; 6; 9]) [0; 5; 5; 5; 6; 9]) = 2%nat.
Proof.
  assert (Hex : timeline_exact 5 4)
    by (split; [lia | split; [lia | vm_compute; discriminate]]).
  split; [exact Hex|].
  exact (X7_rows_kept_per_train 2 5 4 [0; 5; 5; 5; 6; 9] 5 Hex).
Defined.

(** X8.  Validation is idempotent: the train ids that survive one
    validation all survive a second one. *)
Theorem X8_validation_idempotent npl ft nt tid :
  let tid_s := Np.select (validate npl ft nt tid) tid in
  validate npl ft nt tid_s = repeat true (length tid_s).
Proof.
  intros tid_s. apply nth_ext with (d := false) (d' := false).
  - rewrite length_validate, repeat_length. reflexivity.
  - intros j Hj. rewrite length_validate in Hj.
    rewrite nth_repeat_lt by exact Hj.
    rewrite validate_nth, nth_sel0 by exact Hj.
    assert (Hin : In (nth j tid_s 0) tid_s) by (apply nth_In; exact Hj).
    pose proof (survivors_in_range npl ft nt tid _ Hin) as [H1 H2].
    pose proof (survivors_capped npl ft nt tid (nth j tid_s 0)) as Hc.
    fold tid_s in Hc.
    apply Z.ltb_lt in H1, H2. rewrite H1, H2. simpl.
    assert (E : Nat.ltb npl (Np.count (nth j tid_s 0) tid_s) = false)
      by (apply Nat.ltb_ge; exact Hc).
    rewrite E. reflexivity.
Qed.

Lemma sum_zero_all_false mask :
  Np.sum mask = 0%nat <-> forall j, nth j mask false = false.
Proof.
  induction mask as [|b m IH].
  - split; [intros _ [|j]; reflexivity | reflexivity].
  - rewrite sum_cons. split.
    + intros H. destruct b; [simpl in H; lia|].
      intros [|j]; [reflexivity|]. simpl. apply IH. simpl in H. lia.
    + intros H. pose proof (H 0%nat) as H0. simpl in H0. subst b. simpl.
      apply IH. intros j. apply (H (S j)).
Qed.

(** X9.  Take a timeline that ends at or below 2^53, where the
    float64 comparison of line 101 is the comparison of integers.  A
    file is skipped at line 106 exactly when none of its rows has a
    train id that is positive and below [ltrain]; the removal of
    repeated train ids alone never empties a file.  A skipped file
    leaves the layout and both id arrays as they were. *)
Theorem X9_file_skipped_iff_no_row_in_range npl ft nt f :
  (0 < npl)%nat ->
  timeline_exact ft nt ->
  Float64.sel0 ft nt (map trainId (image f)) = sel0 ft nt (map trainId (image f)) /\
  (Np.sum (file_mask npl ft nt f) = 0%nat <->
   forall r, In r (image f) -> ~ 0 < trainId r < ltrain ft nt) /\
  ((forall r, In r (image f) -> ~ 0 < trainId r < ltrain ft nt) ->
   forall m st, process_file npl ft nt m st f = Next st).
Proof.
  intros Hn Hex. split; [apply Float64Facts.sel0_exact, Hex|].
  assert (Hiff : Np.sum (file_mask npl ft nt f) = 0%nat <->
                 forall r, In r (image f) -> ~ 0 < trainId r < ltrain ft nt).
  { unfold file_mask. set (tid := map trainId (image f)).
    assert (Hs : Np.sum (validate npl ft nt tid) =
                 length (Np.select (validate npl ft nt tid) tid)).
    { symmetry. apply length_select, length_validate. }
    rewrite Hs. split.
    - intros H0 r Hr Hrange.
      assert (Hin : In (trainId r) tid) by (apply in_map, Hr).
      pose proof (survivors_count npl ft nt tid (trainId r)) as Hc.
      assert (Er : (0 <? trainId r) && (trainId r <? ltrain ft nt) = true).
      { apply andb_true_iff. split; apply Z.ltb_lt; lia. }
      rewrite Er in Hc. apply count_in in Hin.
      destruct (Np.select (validate npl ft nt tid) tid) as [|x l] eqn:E;
        [|simpl in H0; lia].
      change (Np.count (trainId r) []) with 0%nat in Hc. lia.
    - intros Hno.
      destruct (Np.select (validate npl ft nt tid) tid) as [|x l] eqn:E;
        [reflexivity|]. exfalso.
      assert (Hx : In x (Np.select (validate npl ft nt tid) tid))
        by (rewrite E; left; reflexivity).
      pose proof (survivors_in_range npl ft nt tid x Hx) as Hrange.
      apply in_select in Hx; [|apply length_validate].
      destruct Hx as (j & Hj & _ & Ej). unfold tid in Hj, Ej.
      rewrite length_map in Hj.
      rewrite nth_map_lt with (d' := {| trainId := 0; cellId := 0; pulseId := 0 |})
        in Ej by exact Hj.
      apply (Hno (nth j (image f) {| trainId := 0; cellId := 0; pulseId := 0 |}));
        [apply nth_In; exact Hj | rewrite Ej; exact Hrange]. }
  split; [exact Hiff|].
  intros Hno m st. unfold process_file. fold (file_mask npl ft nt f).
  apply Hiff in Hno. rewrite Hno. reflexivity.
Qed.

Lemma X9_file_skipped_iff_no_row_in_range_witness :
  (0 < npulses)%nat /\ timeline_exact 100 4 /\
  Np.sum (file_mask npulses 100 4
            {| fname := "AGIPD00-S00000.h5"; INDEX_trainId := [100];
               image := [ {| trainId := 0; cellId := 0; pulseId := 0 |};
                          {| trainId := 104; cellId := 1; pulseId := 8 |} ] |}) = 0%nat /\
  process_file npulses 100 4 0 (init_state npulses 4)
    {| fname := "AGIPD00-S00000.h5"; INDEX_trainId := [100];
       image := [ {| trainId := 0; cellId := 0; pulseId := 0 |};
                  {| trainId := 104; cellId := 1; pulseId := 8 |} ] |} =
  Next (init_state npulses 4).
Proof.
  assert (Hn : (0 < npulses)%nat) by (vm_compute; lia).
  assert (Hex : timeline_exact 100 4)
    by (split; [lia | split; [lia | vm_compute; discriminate]]).
  split; [exact Hn|]. split; [exact Hex|].
  assert (Hno : forall r,
            In r [ {| trainId := 0; cellId := 0; pulseId := 0 |};
                   {| trainId := 104; cellId := 1; pulseId := 8 |} ] ->
            ~ 0 < trainId r < ltrain 100 4)
    by (intros r [<- | [<- | []]]; unfold ltrain; simpl; lia).
  split.
  - apply (proj1 (proj2 (X9_file_skipped_iff_no_row_in_range npulses 100 4 _ Hn Hex))).
    exact Hno.
  - apply (proj2 (proj2 (X9_file_skipped_iff_no_row_in_range npulses 100 4 _ Hn Hex))).
    exact Hno.
Defined.

(** Row [j] is selected in chunk [c] exactly when it is valid and
    [c = j / chunk_size]. *)
Lemma chunk_rows_nth sel j c :
  (j < length sel)%nat ->
  nth j (chunk_rows (length sel) sel c) false =
    nth j sel false && Nat.eqb (j / chunk_size) c.
Proof.
  intros Hj.
  pose proof (Nat.div_mod_eq j chunk_size) as Ed.
  pose proof (Nat.mod_upper_bound j chunk_size ltac:(unfold chunk_size; lia)) as Hm.
  unfold chunk_rows, chunk_sel.
  rewrite nth_map_lt with (d' := (0%nat, false))
    by (rewrite length_combine, length_seq; lia).
  rewrite nth_combine_seq by exact Hj. simpl fst. simpl snd.
  rewrite andb_comm. f_equal.
  unfold chunk_size in *.
  destruct (Nat.eqb_spec (j / 32) c) as [E | E].
  - apply andb_true_iff. split; [apply Nat.leb_le | apply Nat.ltb_lt]; lia.
  - apply andb_false_iff.
    destruct (Nat.lt_ge_cases j (c * 32)) as [Hlt | Hge].
    + left. apply Nat.leb_gt. lia.
    + right. apply Nat.ltb_ge. lia.
Qed.

Lemma row_chunk_in_loop n j :
  (j < n)%nat -> (j / chunk_size < num_chunks n)%nat.
Proof.
  intros Hj.
  pose proof (Nat.div_mod_eq j chunk_size) as Ed.
  pose proof (Nat.mod_upper_bound j chunk_size ltac:(unfold chunk_size; lia)) as Hm.
  unfold num_chunks, chunk_size in *.
  pose proof (Nat.div_mod_eq (n + (32 - 1)) 32).
  pose proof (Nat.mod_upper_bound (n + (32 - 1)) 32 ltac:(lia)). lia.
Qed.

(** X10.  The chunks of the loop partition the rows of a file: row [j]
    is selected in chunk [c] exactly when it is valid and
    [c = j / chunk_size], and that chunk is one of the [num_chunks]
    chunks of the loop. *)
Theorem X10_chunks_partition_rows sel j c :
  (j < length sel)%nat ->
  nth j (chunk_rows (length sel) sel c) false =
    nth j sel false && Nat.eqb (j / chunk_size) c /\
  (j / chunk_size < num_chunks (length sel))%nat.
Proof.
  intros Hj. split; [apply chunk_rows_nth | apply row_chunk_in_loop]; exact Hj.
Qed.

Lemma X10_chunks_partition_rows_witness :
  nth 40 (chunk_rows (length (repeat true 70)) (repeat true 70) 1) false =
    nth 40 (repeat true 70) false && Nat.eqb (40 / chunk_size) 1 /\
  (40 / chunk_size < num_chunks (length (repeat true 70)))%nat.
Proof.
  apply (X10_chunks_partition_rows (repeat true 70) 40 1).
  vm_compute. lia.
Defined.



(** ** The entries of the layout *)

Lemma in_combine_nth {A B} (l1 : list A) : forall (l2 : list B) x y,
  In (x, y) (combine l1 l2) ->
  forall d1 d2, exists i, (i < length l1)%nat /\ (i < length l2)%nat /\
                          nth i l1 d1 = x /\ nth i l2 d2 = y.
Proof.
  induction l1 as [|a l1 IH]; intros [|b l2] x y H d1 d2; simpl in H; try contradiction.
  destruct H as [E | H].
  - injection E as <- <-. exists 0%nat. simpl. repeat split; lia.
  - destruct (IH l2 x y H d1 d2) as (i & H1 & H2 & H3 & H4).
    exists (S i). simpl. repeat split; auto; lia.
Qed.

Lemma nth_in_combine {A B} (l1 : list A) : forall (l2 : list B) i d1 d2,
  (i < length l1)%nat -> (i < length l2)%nat ->
  In (nth i l1 d1, nth i l2 d2) (combine l1 l2).
Proof.
  induction l1 as [|a l1 IH]; intros [|b l2] i d1 d2 H1 H2; simpl in *; try lia.
  destruct i as [|i]; [left; reflexivity|]. right. apply IH; lia.
Qed.

Section EntryFacts.

Variable npl : nat.
Variable ft nt : Z.
Variable glob : nat -> list h5file.
Hypothesis npl_pos : (0 < npl)%nat.

(** What one chunk adds to the layout. *)
Lemma chunk_step_next (m : nat) f sel c L L' :
  chunk_step npl ft nt m f sel c L = Next L' ->
  let csel := chunk_rows (length (image f)) sel c in
  let cind := chunk_ind npl ft nt (image f) csel in
  Np.sum csel = length cind /\
  (L' = L /\ Np.sum csel = 0%nat \/
   L' = combine (map (pair m) cind)
                (map (fun r => {| src_file := fname f; src_row := r |})
                     (Np.where_ csel)) ++ L /\ Np.sum csel <> 0%nat).
Proof.
  rewrite chunk_step_cases. cbv zeta. unfold chunk_mismatch. cbv zeta.
  destruct (Np.sum _ =? length _)%nat eqn:E; simpl; [|discriminate].
  apply Nat.eqb_eq in E. split; [exact E|].
  destruct (Np.sum _ =? 0)%nat eqn:E0; injection H as <-.
  - left. apply Nat.eqb_eq in E0. auto.
  - right. apply Nat.eqb_neq in E0. auto.
Qed.

(** An entry added by a chunk pairs the i-th destination with the
    i-th selected row. *)
Lemma new_entry_nth (m : nat) f csel cind (m' p : nat) s :
  In ((m', p), s)
     (combine (map (pair m) cind)
              (map (fun r => {| src_file := fname f; src_row := r |})
                   (Np.where_ csel))) ->
  m' = m /\ src_file s = fname f /\
  exists i, (i < length cind)%nat /\ (i < length (Np.where_ csel))%nat /\
            nth i cind 0%nat = p /\ nth i (Np.where_ csel) 0%nat = src_row s.
Proof.
  intros H.
  destruct (in_combine_nth _ _ _ _ H (m, 0%nat)
              {| src_file := fname f; src_row := 0 |}) as (i & H1 & H2 & H3 & H4).
  rewrite length_map in H1, H2.
  rewrite nth_map_lt with (d' := 0%nat) in H3 by exact H1.
  rewrite nth_map_lt with (d' := 0%nat) in H4 by exact H2.
  injection H3 as <- <-. subst s. simpl.
  split; [reflexivity|]. split; [reflexivity|]. exists i. auto.
Qed.

Lemma chunk_step_from ms m f c L L' :
  In m ms -> In f (glob m) -> entries_from npl ft nt glob ms L ->
  chunk_step npl ft nt m f (file_mask npl ft nt f) c L = Next L' ->
  entries_from npl ft nt glob ms L'.
Proof.
  intros Hm Hf HL H. apply chunk_step_next in H. cbv zeta in H.
  destruct H as [_ [[-> _] | [-> _]]]; [exact HL|].
  intros m' p s Hin. apply in_app_or in Hin.
  destruct Hin as [Hin | Hin]; [|apply (HL _ _ _ Hin)].
  apply new_entry_nth in Hin.
  destruct Hin as (-> & Es & i & Hi1 & Hi2 & Ep & Er).
  split; [exact Hm|]. split.
  - assert (Hp : In p (chunk_ind npl ft nt (image f)
                         (chunk_rows (length (image f)) (file_mask npl ft nt f) c)))
      by (rewrite <- Ep; apply nth_In; exact Hi1).
    unfold chunk_ind in Hp. apply in_where_in1d in Hp.
    rewrite length_all_flatid in Hp by exact npl_pos. apply Hp.
  - exists f. split; [exact Hf|]. split; [exact Es|].
    assert (Hr : In (src_row s)
                    (Np.where_ (chunk_rows (length (image f))
                                           (file_mask npl ft nt f) c)))
      by (rewrite <- Er; apply nth_In; exact Hi2).
    apply in_where in Hr. unfold chunk_rows in Hr.
    apply (nth_chunk_sel _ _ _ _ Hr).
Qed.

Lemma chunks_loop_from ms m f : forall chunks L L',
  In m ms -> In f (glob m) -> entries_from npl ft nt glob ms L ->
  chunks_loop npl ft nt m f (file_mask npl ft nt f) chunks L = Next L' ->
  entries_from npl ft nt glob ms L'.
Proof.
  induction chunks as [|c rest IH]; intros L L' Hm Hf HL H.
  - injection H as <-. exact HL.
  - simpl in H.
    destruct (chunk_step npl ft nt m f (file_mask npl ft nt f) c L) eqn:E;
      try discriminate.
    eapply IH; [exact Hm | exact Hf | | exact H].
    eapply chunk_step_from; eauto.
Qed.

(** What a file that is processed to the end does to the layout. *)
Lemma process_file_layout m st f st' :
  process_file npl ft nt m st f = Next st' ->
  Np.sum (file_mask npl ft nt f) = 0%nat /\ st' = st \/
  Np.sum (file_mask npl ft nt f) <> 0%nat /\
  chunks_loop npl ft nt m f (file_mask npl ft nt f)
              (seq 0 (num_chunks (length (image f)))) (layout_data st)
    = Next (layout_data st').
Proof.
  unfold process_file. fold (file_mask npl ft nt f).
  destruct (Np.sum (file_mask npl ft nt f) =? 0)%nat eqn:E0.
  - intros H. injection H as <-. left. apply Nat.eqb_eq in E0. auto.
  - apply Nat.eqb_neq in E0.
    destruct (chunks_loop _ _ _ _ _ _ _ _) as [L| |] eqn:EL; try discriminate.
    destruct (mask_write (outdset_cid st) _ _); [|discriminate].
    destruct (mask_write (outdset_pid st) _ _); [|discriminate].
    intros H. injection H as <-. right. auto.
Qed.

Lemma files_loop_from ms m : forall fl st st',
  In m ms -> (forall f, In f fl -> In f (glob m)) ->
  entries_from npl ft nt glob ms (layout_data st) ->
  files_loop npl ft nt m st fl = Next st' ->
  entries_from npl ft nt glob ms (layout_data st').
Proof.
  induction fl as [|f rest IH]; intros st st' Hm Hfl HL H.
  - injection H as <-. exact HL.
  - simpl in H. destruct (process_file npl ft nt m st f) as [st1| |] eqn:E;
      try discriminate.
    eapply IH; [exact Hm | | | exact H].
    + intros g Hg. apply Hfl. right. exact Hg.
    + destruct (process_file_layout _ _ _ _ E) as [[_ ->] | [_ EL]]; [exact HL|].
      eapply chunks_loop_from; [exact Hm | | exact HL | exact EL].
      apply Hfl. left. reflexivity.
Qed.

Lemma modules_loop_from ms : forall rest st st',
  (forall m, In m rest -> In m ms) ->
  entries_from npl ft nt glob ms (layout_data st) ->
  modules_loop npl ft nt glob rest st = Next st' ->
  entries_from npl ft nt glob ms (layout_data st').
Proof.
  induction rest as [|m rest IH]; intros st st' Hsub HL H.
  - injection H as <-. exact HL.
  - simpl in H. destruct (files_loop npl ft nt m st (glob m)) as [st1| |] eqn:E;
      try discriminate.
    eapply IH; [ | | exact H].
    + intros m' Hm'. apply Hsub. right. exact Hm'.
    + eapply files_loop_from; [ | | exact HL | exact E].
      * apply Hsub. left. reflexivity.
      * auto.
Qed.

End EntryFacts.




Lemma true_entry_sum mask j : nth j mask false = true -> Np.sum mask <> 0%nat.
Proof.
  intros H H0. rewrite (proj1 (sum_zero_all_false mask) H0 j) in H. discriminate.
Qed.

Section MappingFacts.

Variable npl : nat.
Variable ft nt : Z.
Variable glob : nat -> list h5file.
Hypothesis npl_pos : (0 < npl)%nat.
Hypothesis frames_u8 : Z.of_nat (frames npl nt) <= 2 ^ 64.

(** *** The layout only grows *)

Lemma chunk_step_incl m f sel c L L' :
  chunk_step npl ft nt m f sel c L = Next L' -> incl L L'.
Proof.
  intros H. apply chunk_step_next in H. cbv zeta in H.
  destruct H as [_ [[-> _] | [-> _]]]; [apply incl_refl|].
  apply incl_appr, incl_refl.
Qed.

Lemma chunks_loop_incl m f sel : forall chunks L L',
  chunks_loop npl ft nt m f sel chunks L = Next L' -> incl L L'.
Proof.
  induction chunks as [|c rest IH]; intros L L' H.
  - injection H as <-. apply incl_refl.
  - simpl in H. destruct (chunk_step npl ft nt m f sel c L) eqn:E; try discriminate.
    eapply incl_tran; [eapply chunk_step_incl; exact E | eapply IH; exact H].
Qed.

Lemma process_file_incl m st f st' :
  process_file npl ft nt m st f = Next st' ->
  incl (layout_data st) (layout_data st').
Proof.
  intros H. destruct (process_file_layout _ _ _ _ _ _ _ H) as [[_ ->] | [_ EL]];
    [apply incl_refl | eapply chunks_loop_incl; exact EL].
Qed.

Lemma files_loop_incl m : forall fl st st',
  files_loop npl ft nt m st fl = Next st' ->
  incl (layout_data st) (layout_data st').
Proof.
  induction fl as [|f rest IH]; intros st st' H.
  - injection H as <-. apply incl_refl.
  - simpl in H. destruct (process_file npl ft nt m st f) eqn:E; try discriminate.
    eapply incl_tran; [eapply process_file_incl; exact E | eapply IH; exact H].
Qed.

Lemma modules_loop_incl : forall ms st st',
  modules_loop npl ft nt glob ms st = Next st' ->
  incl (layout_data st) (layout_data st').
Proof.
  induction ms as [|m rest IH]; intros st st' H.
  - injection H as <-. apply incl_refl.
  - simpl in H. destruct (files_loop npl ft nt m st (glob m)) eqn:E; try discriminate.
    eapply incl_tran; [eapply files_loop_incl; exact E | eapply IH; exact H].
Qed.

(** *** Every valid row of a mapped chunk gets an entry *)

Lemma chunk_step_maps_row m f c L L' j :
  chunk_step npl ft nt m f (file_mask npl ft nt f) c L = Next L' ->
  nth j (chunk_rows (length (image f)) (file_mask npl ft nt f) c) false = true ->
  exists p,
    In ((m, p), {| src_file := fname f; src_row := j |}) L' /\
    (ascending (Np.select (chunk_rows (length (image f)) (file_mask npl ft nt f) c)
                          (flatid npl ft (image f))) = true ->
     p = Z.to_nat (nth j (flatid npl ft (image f)) 0)).
Proof.
  intros H Hj. apply chunk_step_next in H. cbv zeta in H.
  set (csel := chunk_rows (length (image f)) (file_mask npl ft nt f) c) in *.
  set (cind := chunk_ind npl ft nt (image f) csel) in *.
  destruct H as [Hc [[_ H0] | [-> _]]];
    [exfalso; apply (true_entry_sum _ _ Hj H0)|].
  assert (Hcl : length csel = length (image f)).
  { unfold csel, chunk_rows. rewrite length_chunk_sel. apply length_file_mask. }
  assert (Hin : In j (Np.where_ csel)) by (apply in_where, Hj).
  destruct (In_nth _ _ 0%nat Hin) as (i & Hi & Ei).
  assert (Hi' : (i < length cind)%nat) by (rewrite <- Hc, <- length_where; exact Hi).
  exists (nth i cind 0%nat). split.
  - apply in_or_app. left.
    pose proof (nth_in_combine
                  (map (pair m) cind)
                  (map (fun r => {| src_file := fname f; src_row := r |})
                       (Np.where_ csel))
                  i (m, 0%nat) {| src_file := fname f; src_row := 0 |}) as Hnc.
    rewrite !length_map in Hnc. specialize (Hnc Hi' Hi).
    rewrite nth_map_lt with (d' := 0%nat) in Hnc by exact Hi'.
    rewrite nth_map_lt with (d' := 0%nat) in Hnc by exact Hi.
    rewrite Ei in Hnc. exact Hnc.
  - intros Ha.
    apply (pass_own_position npl ft nt npl_pos frames_u8 _ _ Hcl Hc) in Ha.
    fold cind in Ha. rewrite (pos_rows npl ft _ _ Hcl) in Ha.
    assert (E : nth i (map Z.of_nat cind) 0 =
                nth i (map (fun j0 => nth j0 (flatid npl ft (image f)) 0)
                           (Np.where_ csel)) 0) by (rewrite Ha; reflexivity).
    rewrite nth_map_lt with (d' := 0%nat) in E by exact Hi'.
    rewrite nth_map_lt with (d' := 0%nat) in E by exact Hi.
    rewrite Ei in E. rewrite <- E. rewrite Nat2Z.id. reflexivity.
Qed.

Lemma chunks_loop_maps_row m f j : forall chunks L L' c,
  chunks_loop npl ft nt m f (file_mask npl ft nt f) chunks L = Next L' ->
  In c chunks ->
  nth j (chunk_rows (length (image f)) (file_mask npl ft nt f) c) false = true ->
  exists p,
    In ((m, p), {| src_file := fname f; src_row := j |}) L' /\
    (chunks_ascend npl ft nt f ->
     p = Z.to_nat (nth j (flatid npl ft (image f)) 0)).
Proof.
  induction chunks as [|c0 rest IH]; intros L L' c H Hc Hj; [destruct Hc|].
  simpl in H.
  destruct (chunk_step npl ft nt m f (file_mask npl ft nt f) c0 L) as [L1| |] eqn:E;
    try discriminate.
  destruct Hc as [-> | Hc].
  - destruct (chunk_step_maps_row _ _ _ _ _ _ E Hj) as (p & Hin & Hp).
    exists p. split.
    + apply (chunks_loop_incl _ _ _ _ _ _ H), Hin.
    + intros Ha. apply Hp, Ha.
  - eapply IH; eauto.
Qed.

(** A valid row of a file that is processed to the end has an entry
    for its module. *)
Lemma process_file_maps_row m st f st' j :
  process_file npl ft nt m st f = Next st' ->
  nth j (file_mask npl ft nt f) false = true ->
  exists p,
    In ((m, p), {| src_file := fname f; src_row := j |}) (layout_data st') /\
    (chunks_ascend npl ft nt f ->
     p = Z.to_nat (nth j (flatid npl ft (image f)) 0)).
Proof.
  intros H Hj.
  destruct (process_file_layout _ _ _ _ _ _ _ H) as [[H0 _] | [_ EL]];
    [exfalso; apply (true_entry_sum _ _ Hj H0)|].
  assert (Hlt : (j < length (file_mask npl ft nt f))%nat).
  { destruct (Nat.lt_ge_cases j (length (file_mask npl ft nt f))) as [|Hge];
      [assumption|]. rewrite nth_overflow in Hj by exact Hge. discriminate. }
  pose proof (length_file_mask npl ft nt f) as Hl.
  apply (chunks_loop_maps_row m f j _ _ _ (j / chunk_size)%nat EL).
  - apply in_seq. pose proof (row_chunk_in_loop (length (image f)) j). lia.
  - rewrite <- Hl. rewrite chunk_rows_nth by exact Hlt.
    rewrite Hj, Nat.eqb_refl. reflexivity.
Qed.

Lemma files_loop_maps_row m j f : forall fl st st',
  files_loop npl ft nt m st fl = Next st' ->
  In f fl ->
  nth j (file_mask npl ft nt f) false = true ->
  exists p,
    In ((m, p), {| src_file := fname f; src_row := j |}) (layout_data st') /\
    (chunks_ascend npl ft nt f ->
     p = Z.to_nat (nth j (flatid npl ft (image f)) 0)).
Proof.
  induction fl as [|f0 rest IH]; intros st st' H Hf Hj; [destruct Hf|].
  simpl in H. destruct (process_file npl ft nt m st f0) as [st1| |] eqn:E;
    try discriminate.
  destruct Hf as [-> | Hf].
  - destruct (process_file_maps_row _ _ _ _ _ E Hj) as (p & Hin & Hp).
    exists p. split; [|exact Hp].
    apply (files_loop_incl _ _ _ _ H), Hin.
  - eapply IH; eauto.
Qed.

Lemma modules_loop_maps_row m j f : forall ms st st',
  modules_loop npl ft nt glob ms st = Next st' ->
  In m ms -> In f (glob m) ->
  nth j (file_mask npl ft nt f) false = true ->
  exists p,
    In ((m, p), {| src_file := fname f; src_row := j |}) (layout_data st') /\
    (chunks_ascend npl ft nt f ->
     p = Z.to_nat (nth j (flatid npl ft (image f)) 0)).
Proof.
  induction ms as [|m0 rest IH]; intros st st' H Hm Hf Hj; [destruct Hm|].
  simpl in H. destruct (files_loop npl ft nt m0 st (glob m0)) as [st1| |] eqn:E;
    try discriminate.
  destruct Hm as [-> | Hm].
  - destruct (files_loop_maps_row _ _ _ _ _ _ E Hf Hj) as (p & Hin & Hp).
    exists p. split; [|exact Hp].
    apply (modules_loop_incl _ _ _ H), Hin.
  - eapply IH; eauto.
Qed.

(** *** Entries of a module whose chunks ascend sit on their own
    positions *)

Variable m : nat.
Hypothesis ascend : forall f, In f (glob m) -> chunks_ascend npl ft nt f.





End MappingFacts.



(** X11.  In the layout of a finished run every entry belongs to one of
    the scanned modules, its destination lies inside the timeline, and
    its source is a row of a file of that same module that survived
    validation, with a train id that is positive and below [ltrain]: a
    rejected row is never mapped, and no module's slice is fed from
    another module's file. *)
Theorem X11_layout_entries_sound npl modules glob ft nt :
  (0 < npl)%nat ->
  Timeline.build (map glob modules) = Some (ft, nt) ->
  fst (run npl modules glob) = Finished ->
  exists o L,
    snd (run npl modules glob) = Some o /\ out_data o = Some L /\
    forall m p s,
      In ((m, p), s) L ->
      In m modules /\ (p < frames npl nt)%nat /\
      exists f, In f (glob m) /\ src_file s = fname f /\
                (src_row s < length (image f))%nat /\
                nth (src_row s) (file_mask npl ft nt f) false = true /\
                0 < nth (src_row s) (map trainId (image f)) 0 < ltrain ft nt.
Proof.
  intros Hn Hb Hfin.
  pose proof (run_cases npl modules glob) as R. rewrite Hb in R.
  destruct (glob 0%nat); [rewrite R in Hfin; discriminate|].
  destruct (modules_loop npl ft nt glob modules (init_state npl nt)) as [st| |] eqn:EL;
    rewrite R in Hfin; try discriminate.
  exists (artifact npl ft nt st true), (layout_data st).
  rewrite R. split; [reflexivity|]. split; [reflexivity|].
  assert (H0 : entries_from npl ft nt glob modules (layout_data (init_state npl nt)))
    by (intros m p s []).
  pose proof (modules_loop_from npl ft nt glob Hn modules modules _ _
                (fun m H => H) H0 EL) as HL.
  intros m p s Hin. destruct (HL m p s Hin) as (Hm & Hp & f & Hf & Es & Hv).
  split; [exact Hm|]. split; [exact Hp|].
  exists f. split; [exact Hf|]. split; [exact Es|].
  assert (Hlt : (src_row s < length (image f))%nat).
  { rewrite <- (length_file_mask npl ft nt f).
    destruct (Nat.lt_ge_cases (src_row s) (length (file_mask npl ft nt f))) as [|Hge];
      [assumption|]. rewrite nth_overflow in Hv by exact Hge. discriminate. }
  split; [exact Hlt|]. split; [exact Hv|].
  apply (validate_in_upper_range npl ft nt (map trainId (image f)));
    [rewrite length_map; exact Hlt | exact Hv].
Qed.

Lemma X11_layout_entries_sound_witness :
  exists o L,
    snd (main full_train_glob) = Some o /\ out_data o = Some L /\
    forall m p s,
      In ((m, p), s) L ->
      In m (seq 0 NMODULES) /\ (p < frames npulses 4)%nat /\
      exists f, In f (full_train_glob m) /\ src_file s = fname f /\
                (src_row s < length (image f))%nat /\
                nth (src_row s) (file_mask npulses 100 4 f) false = true /\
                0 < nth (src_row s) (map trainId (image f)) 0 < ltrain 100 4.
Proof.
  apply (X11_layout_entries_sound npulses (seq 0 NMODULES) full_train_glob 100 4).
  - vm_compute. lia.
  - vm_compute. reflexivity.
  - vm_compute. reflexivity.
Defined.

(** X12.  A finished run drops no valid row: every row that survives
    validation, in every file of every scanned module, is the source of
    an entry of the layout for that module. *)
Theorem X12_every_valid_row_mapped npl modules glob ft nt :
  (0 < npl)%nat ->
  Z.of_nat (frames npl nt) <= 2 ^ 64 ->
  Timeline.build (map glob modules) = Some (ft, nt) ->
  fst (run npl modules glob) = Finished ->
  exists o L,
    snd (run npl modules glob) = Some o /\ out_data o = Some L /\
    forall m f j,
      In m modules -> In f (glob m) ->
      nth j (file_mask npl ft nt f) false = true ->
      exists p, In ((m, p), {| src_file := fname f; src_row := j |}) L.
Proof.
  intros Hn Hu Hb Hfin.
  pose proof (run_cases npl modules glob) as R. rewrite Hb in R.
  destruct (glob 0%nat); [rewrite R in Hfin; discriminate|].
  destruct (modules_loop npl ft nt glob modules (init_state npl nt)) as [st| |] eqn:EL;
    rewrite R in Hfin; try discriminate.
  exists (artifact npl ft nt st true), (layout_data st).
  rewrite R. split; [reflexivity|]. split; [reflexivity|].
  intros m f j Hm Hf Hj.
  destruct (modules_loop_maps_row npl ft nt glob Hn Hu m j f _ _ _ EL Hm Hf Hj)
    as (p & Hin & _).
  exists p. exact Hin.
Qed.

Lemma X12_every_valid_row_mapped_witness :
  exists o L,
    snd (main full_train_glob) = Some o /\ out_data o = Some L /\
    forall m f j,
      In m (seq 0 NMODULES) -> In f (full_train_glob m) ->
      nth j (file_mask npulses 100 4 f) false = true ->
      exists p, In ((m, p), {| src_file := fname f; src_row := j |}) L.
Proof.
  apply (X12_every_valid_row_mapped npulses (seq 0 NMODULES) full_train_glob 100 4).
  - vm_compute. lia.
  - vm_compute. discriminate.
  - vm_compute. reflexivity.
  - vm_compute. reflexivity.
Defined.





(** ** The id arrays *)

Lemma length_scatter : forall dst mask vals,
  length (scatter dst mask vals) = length dst.
Proof.
  induction dst as [|d dst IH]; intros [|b mask] vals; try reflexivity.
  destruct b; [destruct vals|]; simpl; rewrite IH; reflexivity.
Qed.

Lemma mask_write_length dst mask vals c :
  mask_write dst mask vals = Some c -> length c = length dst.
Proof.
  unfold mask_write.
  destruct (Np.sum mask =? 0)%nat; [intros H; injection H as <-; reflexivity|].
  destruct (Np.sum mask =? length vals)%nat; [|discriminate].
  intros H. injection H as <-. apply length_scatter.
Qed.

Section LengthFacts.

Variable npl : nat.
Variable ft nt : Z.

Lemma process_file_lengths m st f :
  same_lengths st (outcome_state (process_file npl ft nt m st f)).
Proof.
  unfold process_file, same_lengths.
  destruct (Np.sum _ =? 0)%nat; [simpl; auto|].
  destruct (chunks_loop _ _ _ _ _ _ _ _); simpl; auto.
  destruct (mask_write (outdset_cid st) _ _) as [c1|] eqn:Ec; simpl; auto.
  pose proof (mask_write_length _ _ _ _ Ec).
  destruct (mask_write (outdset_pid st) _ _) as [p1|] eqn:Ep; simpl; auto.
  pose proof (mask_write_length _ _ _ _ Ep). auto.
Qed.

Lemma files_loop_lengths m : forall fl st,
  same_lengths st (outcome_state (files_loop npl ft nt m st fl)).
Proof.
  induction fl as [|f rest IH]; intros st; simpl; [split; reflexivity|].
  pose proof (process_file_lengths m st f) as [H1 H2].
  destruct (process_file npl ft nt m st f) as [st1| |]; simpl in *;
    try (split; assumption).
  destruct (IH st1) as [H3 H4]. split; congruence.
Qed.

Lemma modules_loop_lengths glob : forall ms st,
  same_lengths st (outcome_state (modules_loop npl ft nt glob ms st)).
Proof.
  induction ms as [|m rest IH]; intros st; simpl; [split; reflexivity|].
  pose proof (files_loop_lengths m (glob m) st) as [H1 H2].
  destruct (files_loop npl ft nt m st (glob m)) as [st1| |]; simpl in *;
    try (split; assumption).
  destruct (IH st1) as [H3 H4]. split; congruence.
Qed.

End LengthFacts.

(** X2.  Whenever a run leaves an output file, finished or not, its
    train id, cell id and pulse id arrays all have [frameCount =
    trainCount * pulsesPerTrain] entries: the masked writes never
    change the size of the arrays. *)
Theorem X2_id_arrays_keep_frame_count npl modules glob o :
  snd (run npl modules glob) = Some o ->
  exists ft nt,
    Timeline.build (map glob modules) = Some (ft, nt) /\
    length (out_trainId o) = frames npl nt /\
    length (out_cellId o) = frames npl nt /\
    length (out_pulseId o) = frames npl nt.
Proof.
  intros H. pose proof (run_cases npl modules glob) as R.
  destruct (Timeline.build (map glob modules)) as [[ft nt]|];
    [|rewrite R in H; discriminate].
  destruct (glob 0%nat); [rewrite R in H; discriminate|].
  exists ft, nt. split; [reflexivity|].
  pose proof (modules_loop_lengths npl ft nt glob modules (init_state npl nt))
    as [H1 H2].
  simpl in H1, H2. rewrite repeat_length in H1, H2.
  destruct (modules_loop npl ft nt glob modules (init_state npl nt)) as [st|msg st|st];
    rewrite R in H; simpl in H; injection H as <-; simpl in *;
    (split; [apply length_all_trains | split; assumption]).
Qed.

Lemma X2_id_arrays_keep_frame_count_witness :
  exists o ft nt,
    snd (main late_abort_glob) = Some o /\
    Timeline.build (map late_abort_glob (seq 0 NMODULES)) = Some (ft, nt) /\
    length (out_trainId o) = frames npulses nt /\
    length (out_cellId o) = frames npulses nt /\
    length (out_pulseId o) = frames npulses nt.
Proof.
  destruct (snd (main late_abort_glob)) as [o|] eqn:E; [|vm_compute in E; discriminate].
  destruct (X2_id_arrays_keep_frame_count npulses (seq 0 NMODULES) late_abort_glob o E)
    as (ft & nt & H).
  exists o, ft, nt. split; [reflexivity | exact H].
Defined.



